(** * The MIDI indexer (src/index.ts), embedded in Rocq

    The indexer keeps a database in step with the mint events of a token
    contract.  Its code is asynchronous TypeScript that talks to three
    collaborators: the chain (an ethers [Contract]), an HTTP gateway
    ([node-fetch]) and the database ([./db]).  The embedding is shallow:

    - every [async] function becomes a computation in a small state and
      exception monad [M]; a rejected promise is [Thrown], and the effects
      performed before the rejection stay;
    - the answers of the collaborators come from a [World], an oracle indexed
      by a logical clock that advances at every collaborator call, so that
      the same call may answer differently later (a transient failure);
    - every collaborator call and console line is appended to a trace;
    - the promises started without [await] (line 199) are kept in a list of
      pending calls. *)

From Stdlib Require Import ZArith List String Ascii Bool Lia FinFun.
Import ListNotations.
Open Scope string_scope.
Open Scope Z_scope.

Set Implicit Arguments.

(** ** JavaScript values the code looks at *)

(** A member of a JSON object, as [res.json()] yields it.  The cast of line
    35 checks nothing, so a member declared a string may hold any JSON
    value.  A value that is neither [null] nor a string (a number, a
    boolean, an array, an object) is [Other], told by what the code can
    observe of it: its truthiness ([false] for the values [false] and [0]),
    the text a template literal gives it, and the text under which the
    database keeps it when it is handed over as a name. *)
Inductive Field : Type :=
| Undefined
| Null
| Str (s : string)
| Other (truthy : bool) (shown stored : string).

(** Truthiness of JavaScript strings: the empty string is falsy. *)
Definition truthy_string (s : string) : bool :=
  match s with
  | EmptyString => false
  | String _ _ => true
  end.

Definition truthy (f : Field) : bool :=
  match f with
  | Str s => truthy_string s
  | Other t _ _ => t
  | Undefined | Null => false
  end.

(** The text the database receives for a value handed over as a name. *)
Definition db_text (f : Field) : string :=
  match f with
  | Str s => s
  | Other _ _ stored => stored
  | Undefined => "undefined"
  | Null => "null"
  end.

(** [f ?? d] *)
Definition nullish (f : Field) (d : string) : string :=
  match f with
  | Undefined | Null => d
  | _ => db_text f
  end.

(** [`${f}`] *)
Definition template (f : Field) : string :=
  match f with
  | Undefined => "undefined"
  | Null => "null"
  | Str s => s
  | Other _ shown _ => shown
  end.

(** [if (error)] on a value of type [string | undefined]. *)
Definition truthy_error (e : option string) : bool :=
  match e with
  | Some s => truthy_string s
  | None => false
  end.

Fixpoint strip_prefix (p s : string) : option string :=
  match p, s with
  | EmptyString, _ => Some s
  | String a p', String b s' =>
      if Ascii.eqb a b then strip_prefix p' s' else None
  | String _ _, EmptyString => None
  end.

(** [s.replace(pat, rep)] with a string pattern: the first occurrence only. *)
Fixpoint replace (pat rep s : string) : string :=
  match strip_prefix pat s with
  | Some rest => rep ++ rest
  | None =>
      match s with
      | EmptyString => EmptyString
      | String c s' => String c (replace pat rep s')
      end
  end.

(** [BigNumber.toNumber()] raises when the value does not fit 53 bits. *)
Definition safe_integer (z : Z) : bool := Z.abs z <? 2 ^ 53.

(** JavaScript numbers are doubles.  The double nearest to the integer [z],
    ties to the even mantissa: what a number holds when it is given [z]
    (integers beyond the range of doubles do not arise from a database
    column). *)
Definition round_double (z : Z) : Z :=
  let a := Z.abs z in
  if a <? 2 ^ 53 then z
  else
    let e := Z.log2 a - 52 in
    let q := Z.shiftr a e in
    let r := a - Z.shiftl q e in
    let half := 2 ^ (e - 1) in
    let q' := if (half <? r) || ((r =? half) && Z.odd q) then q + 1 else q in
    Z.sgn z * Z.shiftl q' e.

(** The number [JSON.parse] gives for an integer. *)
Definition js_number (z : Z) : Z := round_double z.

(** [a + b] on numbers that hold integers: the exact sum, rounded. *)
Definition js_add (a b : Z) : Z := round_double (a + b).

(** [constants.AddressZero] *)
Definition AddressZero : string :=
  "0x0000000000000000000000000000000000000000".

(** ** Metadata documents *)

(** Modelled from the spec: the [properties] of [MIDIMetadata], whose
    declaration ([./types/midi.types]) is missing from the sources; a
    metadata document is "a JSON document with at least
    [properties.device] (string) and optional [properties.manufacturer]
    (string)".  The cast at line 35 checks nothing, so a parsed body may
    still lack [properties] ([None]: undefined or null, of which no member
    can be read) or either member, and a member may hold a value that is
    not a string.  A [properties] that is a number, a string, a boolean or
    an array has neither member: it reads as two [Undefined]. *)
Record Properties : Type := mkProperties {
  device : Field;
  manufacturer : Field
}.

(** Modelled from the spec: the type [MIDIMetadata] of [./types/midi.types],
    missing from the sources; of a document the code reads [properties]
    only. *)
Record MIDIMetadata : Type := mkMetadata {
  properties : option Properties
}.

(** What [res.json()] resolves to: a falsy JSON value ([null], [false], [0],
    the empty string) or a document. *)
Inductive Json : Type :=
| JFalsy
| JDoc (m : MIDIMetadata).

(** ** The database *)

Record DbError : Type := mkDbError {
  details : string;
  message : string
}.

Record Device : Type := mkDevice {
  device_id : Z;
  device_name : string;
  device_manufacturer : string
}.

Record TokenRecord : Type := mkToken {
  token_id : Z;
  token_metadata : MIDIMetadata;
  token_device : Z;
  token_createdBy : string
}.

Record QueueEntry : Type := mkEntry {
  entry_id : Z;
  entry_operator : string;
  entry_error : string;
  entry_attempts : Z
}.

Record DB : Type := mkDB {
  devices : list Device;
  midi : list TokenRecord;
  queue : list QueueEntry
}.

(** ** The chain *)

(** A [TransferSingle(operator, from, to, id, value)] log entry. *)
Record TransferSingle : Type := mkTransfer {
  ev_block : Z;
  ev_operator : string;
  ev_from : string;
  ev_to : string;
  ev_id : Z;
  ev_value : Z
}.

Record Response : Type := mkResponse {
  ok : bool;
  (** [None]: the body is not JSON, [res.json()] rejects *)
  body : option Json
}.

(** ** The collaborators' answers *)

Record World : Type := mkWorld {
  (** [midiInstance.uri(id)]; [None]: the call rejects *)
  chain_uri : nat -> Z -> option string;
  (** [midiInstance.currentTokenId()] *)
  chain_currentTokenId : nat -> option Z;
  (** the contract's [TransferSingle] log *)
  chain_log : nat -> option (list TransferSingle);
  (** [fetch(uri)]; [None]: the request itself fails *)
  http_get : nat -> string -> option Response;
  (** does [db.devices.create] succeed *)
  device_create_ok : nat -> string -> string -> bool;
  (** the error of [db.midi.create], if any *)
  midi_create_error : nat -> Z -> option DbError
}.

(** ** Trace *)

Inductive Console : Type :=
| ErrorFetching (uri : string)
| MetadataIs (j : Json)
| CreatingDeviceFailed
| ErrorUpdatingMidi (e : DbError)
| TargetEventFound
| FailedFetchingOperator (id : Z)
| LogOperator (s : string)
| LogFrom (s : string)
| LogTo (s : string)
| LogId (z : Z).

Inductive Event : Type :=
| EUri (id : Z)
| ECurrentTokenId
| EQueryFilter (fromBlock : Z)
| EHttpGet (uri : string)
| EDevicesFetchByName (name : string)
| EDevicesCreate (name manufacturer : string)
| EMidiCreate (id device : Z) (createdBy : string)
| EMidiFetch
| EQueueFetch (limit : nat)
| EQueueCreate (id : Z) (error operator : string)
| EQueueUpdate (id attempts : Z) (error : string)
| EConsole (c : Console).

(** ** State and monad *)

Record St : Type := mkSt {
  db : DB;
  trace : list Event;
  clock : nat;
  (** [indexById] calls started and not awaited: (id, operator) *)
  pending : list (Z * string)
}.

Inductive Exn : Type :=
| RpcError
| NetworkError
| SyntaxError
| TypeError
| Overflow
| RangeError.

Inductive Outcome (A : Type) : Type :=
| Ret (a : A)
| Thrown (x : Exn).

Arguments Thrown {A} x.

Definition M (A : Type) : Type := St -> Outcome A * St.

Definition ret {A} (a : A) : M A := fun s => (Ret a, s).

Definition throw {A} (x : Exn) : M A := fun s => (Thrown x, s).

Definition bind {A B} (m : M A) (k : A -> M B) : M B :=
  fun s =>
    match m s with
    | (Ret a, s') => k a s'
    | (Thrown x, s') => (Thrown x, s')
    end.

Declare Scope m_scope.
Delimit Scope m_scope with M.
Notation "x <- m ;; k" := (bind m (fun x => k))
  (at level 61, m at next level, right associativity) : m_scope.
Notation "m ;; k" := (bind m (fun _ => k))
  (at level 61, right associativity) : m_scope.
Open Scope m_scope.

Definition emit (e : Event) : M unit :=
  fun s => (Ret tt, mkSt (db s) (trace s ++ [e]) (clock s) (pending s)).

Definition console (c : Console) : M unit := emit (EConsole c).

(** Ask the world; the clock advances. *)
Definition ask {A} (f : nat -> A) : M A :=
  fun s => (Ret (f (clock s)), mkSt (db s) (trace s) (S (clock s)) (pending s)).

Definition get_db : M DB := fun s => (Ret (db s), s).

Definition put_db (d : DB) : M unit :=
  fun s => (Ret tt, mkSt d (trace s) (clock s) (pending s)).

Definition spawn (id : Z) (operator : string) : M unit :=
  fun s => (Ret tt, mkSt (db s) (trace s) (clock s) (pending s ++ [(id, operator)])).

Definition from_option {A} (x : Exn) (o : option A) : M A :=
  match o with
  | Some a => ret a
  | None => throw x
  end.

Definition toNumber (z : Z) : M Z :=
  if safe_integer z then ret z else throw Overflow.

(** ** The database collaborator ([./db])

    [./db] and [./supabase] are not part of the sources.  The operations
    below follow the interface of section 6 and the queue policy of section
    4.3 of the specification.  Whether a write succeeds is the world's
    choice. *)
Module Db.

(** Modelled from the spec: [db.devices.fetchByName], missing from the
    sources; "looks up Device Record by exact name match",
    [devices.fetchByName(name) -> Device | none]. *)
Definition devices_fetchByName (deviceName : string) : M (option Device) :=
  emit (EDevicesFetchByName deviceName) ;;
  d <- get_db ;;
  ret (find (fun r => String.eqb (device_name r) deviceName) (devices d)).

(** Modelled from the spec: [db.devices.create], missing from the sources;
    [devices.create(name, manufacturer) -> Device | none], where none is a
    creation failure ("constraint violation, transient DB error"). *)
Definition devices_create (name manufacturer : string) (w : World)
  : M (option Device) :=
  emit (EDevicesCreate name manufacturer) ;;
  success <- ask (fun t => device_create_ok w t name manufacturer) ;;
  if success : bool then
    d <- get_db ;;
    let row :=
      mkDevice (Z.of_nat (List.length (devices d)) + 1) name manufacturer in
    put_db (mkDB (devices d ++ [row]) (midi d) (queue d)) ;;
    ret (Some row)
  else ret None.

(** Modelled from the spec: [db.midi.create], missing from the sources;
    [midi.create(id, metadata, device, createdBy) -> {error}], "writes the
    Token Record (id, metadata, device reference, creator)". *)
Definition midi_create (id : Z) (metadata : MIDIMetadata) (dev : Z)
  (createdBy : string) (w : World) : M (option DbError) :=
  emit (EMidiCreate id dev createdBy) ;;
  error <- ask (fun t => midi_create_error w t id) ;;
  match error with
  | Some e => ret (Some e)
  | None =>
      d <- get_db ;;
      put_db (mkDB (devices d)
                (midi d ++ [mkToken id metadata dev createdBy]) (queue d)) ;;
      ret None
  end.

(** Modelled from the spec: [db.midi.fetch], missing from the sources;
    [midi.fetch() -> {data: list of {id}}], the Token Records. *)
Definition midi_fetch : M (list TokenRecord) :=
  emit EMidiFetch ;;
  d <- get_db ;;
  ret (midi d).

(** Modelled from the spec: [db.queue.fetch], missing from the sources;
    "[fetchBatch(limit)]: returns up to [limit] entries", oldest first. *)
Definition queue_fetch (limit : nat) : M (list QueueEntry) :=
  emit (EQueueFetch limit) ;;
  d <- get_db ;;
  ret (firstn limit (queue d)).

(** Modelled from the spec: [db.queue.create], missing from the sources;
    "[enqueue(id, errorMessage, operatorAddress)]: inserts a new entry with
    attempt count initialized to 0 ... source behavior always inserts". *)
Definition queue_create (id : Z) (error operator : string) : M unit :=
  emit (EQueueCreate id error operator) ;;
  d <- get_db ;;
  put_db (mkDB (devices d) (midi d) (queue d ++ [mkEntry id operator error 0])).

Definition update_entry (id attempts : Z) (error : string) (r : QueueEntry)
  : QueueEntry :=
  if entry_id r =? id then mkEntry id (entry_operator r) error attempts else r.

(** Modelled from the spec: [db.queue.update], missing from the sources;
    "[update(id, newAttemptCount, errorMessage)]: records a further failed
    attempt", on the entries of that id. *)
Definition queue_update (id attempts : Z) (error : string) : M unit :=
  emit (EQueueUpdate id attempts error) ;;
  d <- get_db ;;
  put_db (mkDB (devices d) (midi d)
            (map (update_entry id attempts error) (queue d))).

End Db.

(** ** [fetchMetadata] (lines 27-38) *)

(** [uri.replace("ipfs://", "https://nftstorage.link/ipfs/")] *)
Definition gateway (uri : string) : string :=
  replace "ipfs://" "https://nftstorage.link/ipfs/" uri.

Definition fetchMetadata (w : World) (id : Z) : M (option Json) :=
  uri <- (emit (EUri id) ;;
          o <- ask (fun t => chain_uri w t id) ;;
          from_option RpcError o) ;;
  let uri := gateway uri in
  res <- (emit (EHttpGet uri) ;;
          o <- ask (fun t => http_get w t uri) ;;
          from_option NetworkError o) ;;
  if negb (ok res) then
    console (ErrorFetching uri) ;;
    ret None
  else
    metadata <- from_option SyntaxError (body res) ;;
    console (MetadataIs metadata) ;;
    ret (Some metadata).

(** ** [indexById] (lines 40-109)

    The result is the [error] member of the returned object. *)

Definition msg_fetch : string := "failed fetching metadata".
Definition msg_no_device : string := "no metadata.properties.device property".
Definition msg_device (p : Properties) : string :=
  "creating device failed failed for " ++ template (manufacturer p)
    ++ ": " ++ template (device p).
Definition msg_midi (e : DbError) : string :=
  "failed creating midi: " ++ details e ++ " " ++ message e.

Definition indexById (w : World) (id : Z) (operator : string)
  : M (option string) :=
  metadata <- fetchMetadata w id ;;
  match metadata with
  | None | Some JFalsy => ret (Some msg_fetch)
  | Some (JDoc m) =>
      (* [metadata.properties.device]: reading [device] of a missing
         [properties] raises *)
      p <- from_option TypeError (properties m) ;;
      if truthy (device p) then
        found <- Db.devices_fetchByName (db_text (device p)) ;;
        dev <- match found with
               | Some d => ret (Some d)
               | None =>
                   Db.devices_create (db_text (device p))
                     (nullish (manufacturer p) "") w
               end ;;
        match dev with
        | None =>
            console CreatingDeviceFailed ;;
            ret (Some (msg_device p))
        | Some d =>
            error <- Db.midi_create id m (device_id d) operator w ;;
            match error with
            | Some e =>
                console (ErrorUpdatingMidi e) ;;
                ret (Some (msg_midi e))
            | None => ret None
            end
        end
      else ret (Some msg_no_device)
  end.

(** ** [fetchOriginalMinter] (lines 111-142) *)

(** [midiInstance.queryFilter(filters.TransferSingle(null, AddressZero, null,
    null, null), fromBlock)] *)
Definition queryFilter (w : World) (fromBlock : Z) : M (list TransferSingle) :=
  emit (EQueryFilter fromBlock) ;;
  o <- ask (chain_log w) ;;
  log <- from_option RpcError o ;;
  ret (filter (fun e => String.eqb (ev_from e) AddressZero
                        && (fromBlock <=? ev_block e)) log).

(** [events.find((event) => event.args?.id.toNumber() === id)] *)
Fixpoint find_event (id : Z) (events : list TransferSingle)
  : M (option TransferSingle) :=
  match events with
  | [] => ret None
  | e :: rest =>
      n <- toNumber (ev_id e) ;;
      if n =? id then ret (Some e) else find_event id rest
  end.

Definition fetchOriginalMinter (w : World) (id : Z) : M (option string) :=
  transferFromSingleEvents <- queryFilter w 7853362 ;;
  targetEvent <- find_event id transferFromSingleEvents ;;
  match targetEvent with
  | None =>
      console TargetEventFound ;;
      ret None
  | Some e => ret (Some (ev_operator e))
  end.

(** ** [sync] (lines 147-202) *)

(** The array [[1, ..., n]]. *)
Definition tokenIDs (n : Z) : list Z :=
  map Z.of_nat (seq 1 (Z.to_nat n)).

(** [Array.from({ length: n }, (_, i) => i + 1)]: an array cannot have 2^32
    elements or more, the attempt is a RangeError. *)
Definition array_from (n : Z) : M (list Z) :=
  if n <? 2 ^ 32 then ret (tokenIDs n) else throw RangeError.

(** [xs.includes(x)] *)
Definition includes (xs : list Z) (x : Z) : bool :=
  existsb (Z.eqb x) xs.

(** The list of lines 167-184, when the array can be built. *)
Definition unqueueDiff (currentID : Z) (dbRowIDs queueIDs : list Z) : list Z :=
  let diff := filter (fun id => negb (includes dbRowIDs id)) (tokenIDs currentID) in
  filter (fun id => negb (includes queueIDs id)) diff.

(** The [for] loop of lines 189-200.  [indexById] is started and not awaited
    (line 199): the call is set aside in [pending], with its arguments, and
    the steps it takes, the first of which the code takes at once and the
    others while the loop goes on, are those of [run_calls] below.  A
    missing operator leaves the function ([return], line 196). *)
Fixpoint sync_loop (w : World) (ids : list Z) : M unit :=
  match ids with
  | [] => ret tt
  | id :: rest =>
      operator <- fetchOriginalMinter w id ;;
      if truthy_error operator then
        spawn id (match operator with Some o => o | None => "" end) ;;
        sync_loop w rest
      else
        console (FailedFetchingOperator id) ;;
        ret tt
  end.

Definition sync (w : World) : M unit :=
  currentID <- (emit ECurrentTokenId ;;
                o <- ask (chain_currentTokenId w) ;;
                from_option RpcError o) ;;
  data <- Db.midi_fetch ;;
  queue <- Db.queue_fetch 1000 ;;
  let queueIDs := map entry_id queue in
  n <- toNumber currentID ;;
  if negb (n =? Z.of_nat (List.length data)) then
    ids <- array_from n ;;
    let dbRowIDs := map token_id data in
    let diff := filter (fun id => negb (includes dbRowIDs id)) ids in
    sync_loop w (filter (fun id => negb (includes queueIDs id)) diff)
  else ret tt.

(** The pending [indexById] calls run to completion in the order they were
    started; their results go nowhere.  This is one schedule: in the code
    the calls overlap, with one another and with the rest of the loop, at
    every [await].  With a single pending call it is the only one. *)
Fixpoint run_calls (w : World) (calls : list (Z * string)) (s : St) : St :=
  match calls with
  | [] => s
  | (id, operator) :: rest => run_calls w rest (snd (indexById w id operator s))
  end.

Definition run_pending (w : World) (s : St) : St :=
  run_calls w (pending s) (mkSt (db s) (trace s) (clock s) []).

(** One firing of the reconciliation timer (lines 289-291). *)
Definition sweep (w : World) (s : St) : St :=
  run_pending w (snd (sync w s)).

(** ** The [TransferSingle] listener (lines 223-250) *)

(** The four [console.log] lines every event starts with. *)
Definition log_event (operator from to : string) (id : Z) : M unit :=
  console (LogOperator operator) ;;
  console (LogFrom from) ;;
  console (LogTo to) ;;
  console (LogId id).

(** [db.queue.create] (line 246) is called and not awaited: the state given
    is the settled one, in which the entry has been written. *)
Definition on_TransferSingle (w : World) (operator from to : string) (id : Z)
  : M unit :=
  log_event operator from to id ;;
  if String.eqb from AddressZero then
    n <- toNumber id ;;
    error <- indexById w n operator ;;
    if truthy_error error then
      Db.queue_create id (match error with Some e => e | None => "" end)
        operator
    else ret tt
  else ret tt.

(** ** The queue drain timer (lines 255-283) *)

(** The body of the [for] loop, lines 265-281.  [row.attempts + 1] (line
    278) is an addition of numbers. *)
Definition retry (w : World) (row : QueueEntry) : M unit :=
  error <- indexById w (entry_id row) (entry_operator row) ;;
  if truthy_error error then
    Db.queue_update (entry_id row) (js_add (js_number (entry_attempts row)) 1)
      (match error with Some e => e | None => "" end)
  else ret tt.

Fixpoint drain_loop (w : World) (rows : list QueueEntry) : M unit :=
  match rows with
  | [] => ret tt
  | row :: rest => retry w row ;; drain_loop w rest
  end.

Definition drain (w : World) : M unit :=
  queue <- Db.queue_fetch 10 ;;
  drain_loop w queue.

(** ** Vocabulary of the properties *)

(** The events a computation appended. *)
Definition extends (s s' : St) (new : list Event) : Prop :=
  trace s' = (trace s ++ new)%list.

(** The state in which the listener's [if] is reached. *)
Definition logged (operator from to : string) (id : Z) (s : St) : St :=
  mkSt (db s)
    (trace s ++ [EConsole (LogOperator operator); EConsole (LogFrom from);
                 EConsole (LogTo to); EConsole (LogId id)])
    (clock s) (pending s).

(** The state in which the drain loop starts. *)
Definition fetched (limit : nat) (s : St) : St :=
  mkSt (db s) (trace s ++ [EQueueFetch limit]) (clock s) (pending s).

(** The state [Db.queue_update] leaves. *)
Definition updated (id attempts : Z) (error : string) (s : St) : St :=
  mkSt (mkDB (devices (db s)) (midi (db s))
          (map (Db.update_entry id attempts error) (queue (db s))))
    (trace s ++ [EQueueUpdate id attempts error]) (clock s) (pending s).

(** The state [Db.queue_create] leaves. *)
Definition enqueued (id : Z) (error operator : string) (s : St) : St :=
  mkSt (mkDB (devices (db s)) (midi (db s))
          (queue (db s) ++ [mkEntry id operator error 0]))
    (trace s ++ [EQueueCreate id error operator]) (clock s) (pending s).

(** The state in which [sync] compares the counter with the row count: the
    counter, the Token Records and the queue have been read. *)
Definition polled (s : St) : St :=
  mkSt (db s) (trace s ++ [ECurrentTokenId; EMidiFetch; EQueueFetch 1000])
    (S (clock s)) (pending s).

(** ** What is observed of a run *)

(** The ids of [1..currentID] with neither a Token Record nor a fetched
    Queue Entry: the list the loop of [sync] runs over. *)
Definition missing (currentID : Z) (s : St) : list Z :=
  unqueueDiff currentID (map token_id (midi (db s)))
    (map entry_id (firstn 1000 (queue (db s)))).

(** The ids a sweep starts [indexById] for. *)
Definition attempted (w : World) (s : St) : list Z :=
  map fst (pending (snd (sync w s))).

(** The number of minter lookups of a sweep: one [queryFilter] per id. *)
Definition lookups (w : World) (s : St) : nat :=
  List.length
    (filter (fun e => match e with EQueryFilter _ => true | _ => false end)
       (trace (snd (sync w s)))).

Definition has_token (id : Z) (d : DB) : bool :=
  existsb (fun t => token_id t =? id) (midi d).

Definition has_entry (id : Z) (d : DB) : bool :=
  existsb (fun r => entry_id r =? id) (queue d).

(** [`failed fetching operator for ${id}`] was printed. *)
Definition logged_skip (id : Z) (tr : list Event) : bool :=
  existsb (fun e => match e with
                    | EConsole (FailedFetchingOperator i) => i =? id
                    | _ => false
                    end) tr.

(** Section 7: the three ways in which an indexing attempt for [id] is
    accounted for. *)
Definition accounted (id : Z) (s : St) : bool :=
  has_token id (db s) || has_entry id (db s) || logged_skip id (trace s).

(** Token Records are only ever added. *)
Definition midi_grows (s s' : St) : Prop :=
  exists l, midi (db s') = (midi (db s) ++ l)%list.

(** When [indexById], called at time [t] for [id], raises [x]: the uri read
    rejects, the request fails, the body of a successful response is not
    JSON, or the document has no [properties] object. *)
Definition raises (w : World) (t : nat) (id : Z) (x : Exn) : Prop :=
  (chain_uri w t id = None /\ x = RpcError)
  \/ exists u,
       chain_uri w t id = Some u
       /\ ((http_get w (S t) (gateway u) = None /\ x = NetworkError)
           \/ exists res,
                http_get w (S t) (gateway u) = Some res
                /\ ok res = true
                /\ ((body res = None /\ x = SyntaxError)
                    \/ exists m,
                         body res = Some (JDoc m)
                         /\ properties m = None /\ x = TypeError)).


(** ** The specification's sentences, as it states them *)

(** Section 4.2, side effect: one invocation of the index operation creates
    at most one Device Record together with exactly one Token Record, or
    changes nothing. *)
Definition all_or_nothing (w : World) (id : Z) (operator : string) (s : St)
  : Prop :=
  let s' := snd (indexById w id operator s) in
  db s' = db s
  \/ ((exists t, midi (db s') = (midi (db s) ++ [t])%list)
      /\ (devices (db s') = devices (db s)
          \/ exists d, devices (db s') = (devices (db s) ++ [d])%list)).



(** Section 4.4: the listener never lets a failure escape. *)
Definition never_raises (w : World) (operator from to : string) (id : Z)
  (s : St) : Prop :=
  fst (on_TransferSingle w operator from to id s) = Ret tt.

(** Section 8, queue correctness: a mint event whose indexing attempt does
    not succeed leaves a Queue Entry for its id, with attempt count 0. *)
Definition failed_mint_queued (w : World) (operator to : string) (id : Z)
  (s : St) : Prop :=
  fst (indexById w id operator (logged operator AddressZero to id s))
  <> Ret None ->
  exists e,
    In (mkEntry id operator e 0)
      (queue (db (snd (on_TransferSingle w operator AddressZero to id s)))).

(** Section 4.5: every entry of the fetched batch is re-attempted in the
    tick. *)
Definition reattempts_batch (w : World) (s : St) : Prop :=
  forall row,
    In row (firstn 10 (queue (db s))) ->
    exists new,
      extends s (snd (drain w s)) new /\ In (EUri (entry_id row)) new.


(** Section 4.6: an id without historical mint event does not end the
    sweep; every missing id is looked up. *)
Definition sweep_continues (w : World) (s : St) (currentID : Z) : Prop :=
  lookups w s = List.length (missing currentID s).

(** ** Concrete worlds and states *)

Definition alice : string := "0x00000000000000000000000000000000000a11ce".

Definition document (dev manu : Field) : MIDIMetadata :=
  mkMetadata (Some (mkProperties dev manu)).

Definition moog : MIDIMetadata := document (Str "Minimoog") (Str "Moog").


Definition served (j : Json) : option Response :=
  Some (mkResponse true (Some j)).

Definition mint (operator : string) (id : Z) : TransferSingle :=
  mkTransfer 7853400 operator AddressZero operator id 1.

Definition unique_violation : DbError :=
  mkDbError "Key (id)=(1) already exists." "duplicate key value".

(** A world that answers the same at every time. *)
Definition steady (currentID : Z) (log : list TransferSingle)
  (res : option Response) (dev_ok : bool) (midi_err : option DbError)
  : World :=
  mkWorld (fun _ _ => Some "ipfs://bafymidi") (fun _ => Some currentID)
    (fun _ => Some log) (fun _ _ => res) (fun _ _ _ => dev_ok)
    (fun _ _ => midi_err).

(** A world in which everything works. *)
Definition healthy : World := steady 5 [] (served (JDoc moog)) true None.

(** A metadata gateway that answers every request with a failure status. *)
Definition gateway_down : World :=
  steady 5 [] (Some (mkResponse false None)) true None.

(** A gateway whose answers are not JSON. *)
Definition gateway_garbled : World :=
  steady 5 [] (Some (mkResponse true None)) true None.

(** A database that refuses the token write. *)
Definition midi_refused : World :=
  steady 1 [] (served (JDoc moog)) true (Some unique_violation).



(** Five tokens on chain; the log knows the mints of 2 and 5. *)
Definition chain_2_5 : World :=
  steady 5 [mint alice 2; mint alice 5] (served (JDoc moog)) true None.

(** Five tokens on chain; the log knows the mint of 5 only. *)
Definition chain_5 : World :=
  steady 5 [mint alice 5] (served (JDoc moog)) true None.

(** Two tokens on chain; the log knows the mint of 2 only. *)
Definition chain_2 : World :=
  steady 2 [mint alice 2] (served (JDoc moog)) true None.

(** One token on chain, minted by [alice]; its metadata names no device. *)
Definition chain_nameless : World :=
  steady 1 [mint alice 1] (served (JDoc (document Undefined (Str "Moog"))))
    true None.

Definition empty_db : DB := mkDB [] [] [].

(** Token Records 1 and 3, a Queue Entry for 4. *)
Definition db_1_3_q4 : DB :=
  mkDB [mkDevice 1 "Minimoog" "Moog"]
    [mkToken 1 moog 1 alice; mkToken 3 moog 1 alice]
    [mkEntry 4 alice msg_fetch 0].

(** Token Records 1 and 7. *)
Definition db_1_7 : DB :=
  mkDB [mkDevice 1 "Minimoog" "Moog"]
    [mkToken 1 moog 1 alice; mkToken 7 moog 1 alice] [].

(** One Queue Entry, for token 4. *)
Definition db_q4 : DB := mkDB [] [] [mkEntry 4 alice msg_fetch 0].

(** Queue Entries for tokens 4 and 5. *)
Definition db_q4_q5 : DB :=
  mkDB [] [] [mkEntry 4 alice msg_fetch 0; mkEntry 5 alice msg_fetch 0].

Definition start (d : DB) : St := mkSt d [] 0%nat [].

(** Queue Entries for tokens 4, 5 and 6. *)
Definition db_q4_q5_q6 : DB :=
  mkDB [] []
    [mkEntry 4 alice msg_fetch 0; mkEntry 5 alice msg_fetch 0;
     mkEntry 6 alice msg_fetch 0].

(** A gateway that serves a document whose [device] is the number 42. *)
Definition chain_numbered : World :=
  steady 1 [] (served (JDoc (document (Other true "42" "42") Undefined)))
    true None.

(** ** Vocabulary of the further properties *)

From Stdlib Require Import Sorted.

(** How many events of a trace satisfy [p]. *)
Definition count (p : Event -> bool) (tr : list Event) : nat :=
  List.length (filter p tr).

Definition is_uri (e : Event) : bool :=
  match e with EUri _ => true | _ => false end.

Definition is_http (e : Event) : bool :=
  match e with EHttpGet _ => true | _ => false end.

(** The calls of the database collaborator. *)
Definition is_db_call (e : Event) : bool :=
  match e with
  | EDevicesFetchByName _ | EDevicesCreate _ _ | EMidiCreate _ _ _
  | EMidiFetch | EQueueFetch _ | EQueueCreate _ _ _ | EQueueUpdate _ _ _ =>
      true
  | _ => false
  end.

(** The events [queryFilter] keeps (lines 118-127): mints, from the start
    block on. *)
Definition is_mint_since (fromBlock : Z) (e : TransferSingle) : bool :=
  String.eqb (ev_from e) AddressZero && (fromBlock <=? ev_block e).

(** The operator of the first mint of [id] in [log], from block 7853362 on:
    what lines 118-141 compute when every id in the log is representable. *)
Definition first_minter (log : list TransferSingle) (id : Z) : option string :=
  option_map ev_operator
    (find (fun e => is_mint_since 7853362 e && (ev_id e =? id)) log).

(** A Queue Entry after a tick, against the entry it was: same id, same
    operator, attempt count the same or one more. *)
Definition bumped (r r' : QueueEntry) : Prop :=
  entry_id r' = entry_id r
  /\ entry_operator r' = entry_operator r
  /\ (entry_attempts r' = entry_attempts r
      \/ entry_attempts r' = entry_attempts r + 1).

(** A uri without [ipfs://]. *)
Definition arweave : string := "ar://x".

(** A log with a burn of token 2, an early mint of token 2 (before the start
    block) and two later mints of it. *)
Definition bob : string := "0x0000000000000000000000000000000000000b0b".

Definition log_mixed : list TransferSingle :=
  [mkTransfer 7853400 bob alice AddressZero 2 1;
   mkTransfer 7853000 bob AddressZero bob 2 1;
   mkTransfer 7853400 alice AddressZero alice 2 1;
   mkTransfer 7853500 bob AddressZero bob 2 1].

Definition chain_mixed : World :=
  steady 2 log_mixed (served (JDoc moog)) true None.

(** Token 1 is recorded, with its device. *)
Definition db_1 : DB :=
  mkDB [mkDevice 1 "Minimoog" "Moog"] [mkToken 1 moog 1 alice] [].

(** No two Device Records of the same name. *)
Definition unique_names (s : St) : Prop :=
  NoDup (map device_name (devices (db s))).

(** No two Token Records of the same id. *)
Definition unique_tokens (s : St) : Prop :=
  NoDup (map token_id (midi (db s))).

(** [operator] is the operator of a mint of [id] that the log of the world
    holds, at some time, from block 7853362 on; and it is not empty. *)
Definition minted (w : World) (call : Z * string) : Prop :=
  snd call <> ""
  /\ exists t log e,
       chain_log w t = Some log /\ In e log
       /\ ev_id e = fst call /\ ev_operator e = snd call
       /\ ev_from e = AddressZero /\ 7853362 <= ev_block e.

Definition is_query (e : Event) : bool :=
  match e with EQueryFilter _ => true | _ => false end.

(** * Properties *)

Unset Implicit Arguments.

(** ** Symbolic execution of the monad *)

Ltac unfold_m :=
  unfold Db.devices_fetchByName, Db.devices_create, Db.midi_create,
    Db.midi_fetch, Db.queue_fetch, Db.queue_create, Db.queue_update,
    console, from_option, toNumber, get_db, put_db, spawn, ask, emit,
    bind, ret, throw in *.

(** Case analysis on the innermost scrutinee that blocks evaluation. *)
Ltac break_match :=
  match goal with
  | |- context [match ?x with _ => _ end] =>
      lazymatch x with
      | context [match _ with _ => _ end] => fail
      | _ => destruct x eqn:?
      end
  end.

Ltac run := unfold_m; cbn; repeat (break_match; cbn).

(** [new] is determined by the two states. *)
Ltac known_events H :=
  unfold extends in H; cbn in H;
  repeat rewrite <- app_assoc in H;
  apply app_inv_head in H; cbn in H; subst.

Lemma bind_Ret A B (m : M A) (k : A -> M B) s a s' :
  m s = (Ret a, s') -> bind m k s = k a s'.
Proof. unfold bind. intros ->. reflexivity. Qed.

Lemma bind_Thrown A B (m : M A) (k : A -> M B) s x s' :
  m s = (Thrown x, s') -> bind m k s = (Thrown x, s').
Proof. unfold bind. intros ->. reflexivity. Qed.

(** ** [fetchMetadata] *)

(** [fetchMetadata] reads; it writes nothing. *)
Lemma fetchMetadata_frame w id s :
  let s' := snd (fetchMetadata w id s) in
  db s' = db s /\ pending s' = pending s.
Proof. unfold fetchMetadata. run; auto. Qed.

(** ** [indexById] *)

(** Every error message [indexById] returns is a truthy string, so the
    [if (error)] of its callers sees every returned failure. *)
Lemma indexById_error_truthy w id operator s e s' :
  indexById w id operator s = (Ret (Some e), s') -> truthy_string e = true.
Proof.
  unfold indexById, fetchMetadata. run; intros H; inversion H; subst;
    reflexivity.
Qed.

Lemma indexById_frame w id operator s :
  let s' := snd (indexById w id operator s) in
  queue (db s') = queue (db s) /\ pending s' = pending s.
Proof. unfold indexById, fetchMetadata. run; auto. Qed.

(** What one invocation may write. *)
Lemma indexById_devices w id operator s :
  let s' := snd (indexById w id operator s) in
  devices (db s') = devices (db s)
  \/ exists d,
       devices (db s') = (devices (db s) ++ [d])%list
       /\ find (fun r => String.eqb (device_name r) (device_name d))
            (devices (db s)) = None.
Proof.
  unfold indexById, fetchMetadata. run; auto; right; eexists; split;
    try reflexivity; cbn; assumption.
Qed.

Lemma indexById_success w id operator s :
  let s' := snd (indexById w id operator s) in
  fst (indexById w id operator s) = Ret None ->
  exists d m,
    In d (devices (db s'))
    /\ midi (db s') = (midi (db s) ++ [mkToken id m (device_id d) operator])%list.
Proof.
  unfold indexById, fetchMetadata. run; try discriminate; intros _.
  - match goal with H : find _ _ = Some ?d |- _ =>
      exists d; eexists; split; [apply (find_some _ _ H) | reflexivity] end.
  - eexists; eexists; split; [apply in_or_app; right; left; reflexivity|].
    reflexivity.
Qed.

Lemma indexById_failure w id operator s :
  let s' := snd (indexById w id operator s) in
  fst (indexById w id operator s) <> Ret None ->
  midi (db s') = midi (db s).
Proof.
  unfold indexById, fetchMetadata. run; auto; intros H; now elim H.
Qed.

Lemma indexById_device_create_failed w id operator s new name manu :
  let s' := snd (indexById w id operator s) in
  extends s s' new ->
  In (EDevicesCreate name manu) new ->
  devices (db s') = devices (db s) ->
  (exists p, fst (indexById w id operator s) = Ret (Some (msg_device p)))
  /\ db s' = db s
  /\ forall i dv c, ~ In (EMidiCreate i dv c) new.
Proof.
  unfold indexById, fetchMetadata. run; intros Hext Hin Hdev;
    known_events Hext; cbn in Hin;
    repeat (destruct Hin as [Hin | Hin]; try discriminate Hin);
    try contradiction;
    try (exfalso; revert Hdev; clear; intros Hdev;
         apply (f_equal (@List.length Device)) in Hdev;
         rewrite length_app in Hdev; cbn in Hdev; lia).
  split; [eexists; reflexivity|]. split; [now destruct (db s)|].
  intros i dv c. cbn. intuition discriminate.
Qed.

(** C5, as amended.  One invocation of [indexById] never touches the queue;
    it creates at most one Device Record, and only when the lookup by name
    found none; it creates exactly one Token Record, for [id], [operator] and
    a device present afterwards, when it succeeds and none when it does not;
    and when the device creation it asked for produced no Device Record it
    returns the device-creation error, leaves the database as it was and
    never reaches the token write.  (A created device stays when the token
    write then fails.) *)
Theorem indexById_writes w id operator s :
  let r := fst (indexById w id operator s) in
  let s' := snd (indexById w id operator s) in
  queue (db s') = queue (db s)
  /\ (devices (db s') = devices (db s)
      \/ exists d,
           devices (db s') = (devices (db s) ++ [d])%list
           /\ find (fun x => String.eqb (device_name x) (device_name d))
                (devices (db s)) = None)
  /\ (r = Ret None ->
      exists d m,
        In d (devices (db s'))
        /\ midi (db s')
           = (midi (db s) ++ [mkToken id m (device_id d) operator])%list)
  /\ (r <> Ret None -> midi (db s') = midi (db s))
  /\ (forall new name manu,
        extends s s' new ->
        In (EDevicesCreate name manu) new ->
        devices (db s') = devices (db s) ->
        (exists p, r = Ret (Some (msg_device p)))
        /\ db s' = db s
        /\ forall i dv c, ~ In (EMidiCreate i dv c) new).
Proof.
  intros r s'. subst r s'.
  split; [apply indexById_frame|].
  split; [apply indexById_devices|].
  split; [apply indexById_success|].
  split; [apply indexById_failure|].
  intros new name manu. apply indexById_device_create_failed.
Qed.

(** In a healthy world the first token of a new device gets its Device
    Record and its Token Record. *)
Lemma indexById_writes_witness :
  exists d m,
    In d (devices (db (snd (indexById healthy 1 alice (start empty_db)))))
    /\ midi (db (snd (indexById healthy 1 alice (start empty_db))))
       = (midi (db (start empty_db))
          ++ [mkToken 1 m (device_id d) alice])%list.
Proof.
  destruct (indexById_writes healthy 1 alice (start empty_db))
    as [_ [_ [H _]]].
  apply H. reflexivity.
Defined.

(** C5, as stated, fails: the device is new and is created, the token write
    is refused, and the invocation leaves one Device Record and no Token
    Record. *)
Lemma indexById_partial_write :
  ~ all_or_nothing midi_refused 1 alice (start empty_db).
Proof.
  unfold all_or_nothing. cbn. intros [H | [[t H] _]].
  - discriminate H.
  - destruct (midi empty_db); discriminate H.
Qed.

Lemma fetchMetadata_db w id s r s1 :
  fetchMetadata w id s = (r, s1) -> db s1 = db s.
Proof.
  intros H. pose proof (fetchMetadata_frame w id s) as F.
  rewrite H in F. apply F.
Qed.




(** A [device] that is not a string passes the check of line 60 when it is
    truthy: the document is indexed. *)
Lemma indexById_number_device :
  fst (indexById chain_numbered 1 alice (start empty_db)) = Ret None
  /\ map device_name
       (devices (db (snd (indexById chain_numbered 1 alice (start empty_db)))))
     = ["42"].
Proof. split; reflexivity. Qed.

Lemma indexById_raises w id operator s x :
  fst (indexById w id operator s) = Thrown x <-> raises w (clock s) id x.
Proof.
  split.
  - unfold raises, indexById, fetchMetadata. run; intros H;
      try discriminate H; inversion H; subst x.
    + right; eexists; split; [reflexivity|]. right. eexists.
      split; [eassumption|]. split; [now destruct (ok _)|].
      right. eexists. repeat split; eauto.
    + right; eexists; split; [reflexivity|]. right. eexists.
      split; [eassumption|]. split; [now destruct (ok _)|].
      left. split; auto.
    + right; eexists; split; [reflexivity|]. left. split; auto.
    + left. split; auto.
  - unfold raises, indexById, fetchMetadata.
    intros [[H1 ->] | [u [H1 [[H2 ->] | [res [H2 [H3 [[H4 ->] | [m [H4 [H5 ->]]]]]]]]]]];
      unfold_m; cbn; rewrite H1; cbn; try reflexivity;
      rewrite H2; cbn; try reflexivity;
      rewrite H3; cbn; rewrite H4; cbn; try reflexivity.
    rewrite H5. reflexivity.
Qed.

(** The first thing [indexById] does is to read the uri of [id]. *)
Lemma indexById_starts w id operator s :
  exists rest,
    trace (snd (indexById w id operator s)) = (trace s ++ EUri id :: rest)%list.
Proof.
  unfold indexById, fetchMetadata. run;
    repeat rewrite <- app_assoc; cbn; eexists; reflexivity.
Qed.

(** ** The listener *)

Lemma log_event_run operator from to id s :
  log_event operator from to id s = (Ret tt, logged operator from to id s).
Proof.
  unfold log_event, logged. unfold_m. cbn.
  repeat rewrite <- app_assoc. reflexivity.
Qed.

Lemma on_TransferSingle_other w operator from to id s :
  from <> AddressZero ->
  on_TransferSingle w operator from to id s
  = (Ret tt, logged operator from to id s).
Proof.
  intros H. unfold on_TransferSingle.
  erewrite bind_Ret by apply log_event_run.
  destruct (String.eqb_spec from AddressZero); [contradiction | reflexivity].
Qed.

Lemma on_TransferSingle_mint w operator to id s :
  on_TransferSingle w operator AddressZero to id s
  = (n <- toNumber id ;;
     error <- indexById w n operator ;;
     if truthy_error error then
       Db.queue_create id (match error with Some e => e | None => "" end)
         operator
     else ret tt) (logged operator AddressZero to id s).
Proof.
  unfold on_TransferSingle.
  erewrite bind_Ret by apply log_event_run. reflexivity.
Qed.

(** A mint event whose indexing returns an error is put on the queue. *)
Lemma on_TransferSingle_failed w operator to id s e s1 :
  safe_integer id = true ->
  indexById w id operator (logged operator AddressZero to id s)
  = (Ret (Some e), s1) ->
  on_TransferSingle w operator AddressZero to id s
  = (Ret tt, enqueued id e operator s1).
Proof.
  intros Hid Hix. rewrite on_TransferSingle_mint.
  unfold toNumber. rewrite Hid.
  unfold bind at 1. unfold ret at 1.
  erewrite bind_Ret by exact Hix.
  cbn. rewrite (indexById_error_truthy _ _ _ _ _ _ Hix). reflexivity.
Qed.

Lemma on_TransferSingle_indexed w operator to id s s1 :
  safe_integer id = true ->
  indexById w id operator (logged operator AddressZero to id s)
  = (Ret None, s1) ->
  on_TransferSingle w operator AddressZero to id s = (Ret tt, s1).
Proof.
  intros Hid Hix. rewrite on_TransferSingle_mint.
  unfold toNumber. rewrite Hid.
  unfold bind at 1. unfold ret at 1.
  erewrite bind_Ret by exact Hix. reflexivity.
Qed.

Lemma on_TransferSingle_raised w operator to id s x s1 :
  safe_integer id = true ->
  indexById w id operator (logged operator AddressZero to id s)
  = (Thrown x, s1) ->
  on_TransferSingle w operator AddressZero to id s = (Thrown x, s1).
Proof.
  intros Hid Hix. rewrite on_TransferSingle_mint.
  unfold toNumber. rewrite Hid.
  unfold bind at 1. unfold ret at 1.
  erewrite bind_Thrown by exact Hix. reflexivity.
Qed.

Lemma on_TransferSingle_overflow w operator to id s :
  safe_integer id = false ->
  on_TransferSingle w operator AddressZero to id s
  = (Thrown Overflow, logged operator AddressZero to id s).
Proof.
  intros Hid. rewrite on_TransferSingle_mint.
  unfold toNumber. rewrite Hid. reflexivity.
Qed.

(** C7.  An event whose [from] is not the zero address only prints its four
    lines: the handler returns in the state [logged], with the database, the
    clock (no collaborator was called) and the pending calls as they were.
    So whenever the handler does more, [from] is the zero address; and for
    such an event with a representable id the metadata of that id is
    resolved. *)
Theorem mint_filter w operator from to id s :
  let s' := snd (on_TransferSingle w operator from to id s) in
  (from <> AddressZero ->
   on_TransferSingle w operator from to id s
   = (Ret tt, logged operator from to id s)
   /\ db s' = db s /\ clock s' = clock s /\ pending s' = pending s)
  /\ (s' <> logged operator from to id s -> from = AddressZero)
  /\ (from = AddressZero -> safe_integer id = true ->
      exists rest,
        trace s' = (trace (logged operator from to id s) ++ EUri id :: rest)%list).
Proof.
  intros s'. subst s'. split; [|split].
  - intros H. rewrite (on_TransferSingle_other w _ _ _ _ _ H). auto.
  - intros H. destruct (String.eqb_spec from AddressZero) as [E | E]; auto.
    rewrite (on_TransferSingle_other w _ _ _ _ _ E) in H. now elim H.
  - intros -> Hid.
    destruct (indexById_starts w id operator
                (logged operator AddressZero to id s)) as [rest Hrest].
    destruct (indexById w id operator (logged operator AddressZero to id s))
      as [[[e|]|x] s1] eqn:Hix; cbn in Hrest.
    + rewrite (on_TransferSingle_failed w _ _ _ _ _ _ Hid Hix). cbn.
      rewrite Hrest, <- app_assoc. cbn. eexists; reflexivity.
    + rewrite (on_TransferSingle_indexed w _ _ _ _ _ Hid Hix). cbn.
      eexists; exact Hrest.
    + rewrite (on_TransferSingle_raised w _ _ _ _ _ _ Hid Hix). cbn.
      eexists; exact Hrest.
Qed.

(** A burn, from [alice] to the zero address, is not indexed. *)
Lemma mint_filter_witness :
  on_TransferSingle healthy alice alice AddressZero 1 (start empty_db)
  = (Ret tt, logged alice alice AddressZero 1 (start empty_db))
  /\ db (snd (on_TransferSingle healthy alice alice AddressZero 1
                (start empty_db)))
     = empty_db.
Proof.
  destruct (mint_filter healthy alice alice AddressZero 1 (start empty_db))
    as [H _].
  destruct H as [H1 [H2 _]]; [discriminate|]. split; assumption.
Defined.

(** C3, as stated, fails: the indexing attempt of a mint event whose
    metadata body is not JSON does not succeed, and no Queue Entry for its
    id exists afterwards. *)
Lemma mint_parse_error_not_queued :
  ~ failed_mint_queued gateway_garbled alice alice 1 (start empty_db).
Proof.
  unfold failed_mint_queued. intros H.
  destruct H as [e He]; [discriminate | exact He].
Qed.

(** C4, as amended.  For an event with [from] the zero address and a
    representable id, every failure that [indexById] returns as an error
    value is put on the retry queue and the handler completes.  The handler
    raises exactly when [from] is the zero address and either the id does
    not fit a number or [indexById] raises, that is when the uri read
    rejects, the request fails, the body is not JSON or the document has no
    [properties]; the queue is then as it was before the event. *)
Theorem on_TransferSingle_outcome w operator from to id s :
  let s0 := logged operator from to id s in
  let h := on_TransferSingle w operator from to id s in
  (forall e s1,
     from = AddressZero -> safe_integer id = true ->
     indexById w id operator s0 = (Ret (Some e), s1) ->
     h = (Ret tt, enqueued id e operator s1))
  /\ (forall x,
        fst h = Thrown x <->
        from = AddressZero
        /\ ((safe_integer id = false /\ x = Overflow)
            \/ (safe_integer id = true /\ raises w (clock s) id x)))
  /\ (forall x, fst h = Thrown x -> queue (db (snd h)) = queue (db s)).
Proof.
  intros s0 h. subst s0 h. split; [|split].
  - intros e s1 -> Hid Hix. now apply on_TransferSingle_failed.
  - intros x. destruct (String.eqb_spec from AddressZero) as [-> | E].
    + destruct (safe_integer id) eqn:Hid.
      * pose proof (indexById_raises w id operator
                      (logged operator AddressZero to id s) x) as R.
        cbn [logged clock] in R.
        destruct (indexById w id operator (logged operator AddressZero to id s))
          as [[[e|]|y] s1] eqn:Hix.
        -- rewrite (on_TransferSingle_failed w _ _ _ _ _ _ Hid Hix).
           cbn in *. split; [intros H; discriminate H|].
           intros [_ [[H _] | [_ H]]]; [discriminate H|].
           apply (proj2 R) in H. discriminate H.
        -- rewrite (on_TransferSingle_indexed w _ _ _ _ _ Hid Hix).
           cbn in *. split; [intros H; discriminate H|].
           intros [_ [[H _] | [_ H]]]; [discriminate H|].
           apply (proj2 R) in H. discriminate H.
        -- rewrite (on_TransferSingle_raised w _ _ _ _ _ _ Hid Hix).
           cbn in *. split.
           ++ intros H. split; [reflexivity|]. right. split; [reflexivity|].
              apply (proj1 R). inversion H. reflexivity.
           ++ intros [_ [[H _] | [_ H]]]; [discriminate H|].
              apply (proj2 R) in H. inversion H. reflexivity.
      * rewrite (on_TransferSingle_overflow w _ _ _ _ Hid). cbn. split.
        -- intros H. inversion H. auto.
        -- intros [_ [[_ ->] | [H _]]]; [reflexivity | discriminate H].
    + rewrite (on_TransferSingle_other w _ _ _ _ _ E). cbn.
      split; [intros H; discriminate H | intros [H _]; contradiction].
  - intros x. destruct (String.eqb_spec from AddressZero) as [-> | E].
    + destruct (safe_integer id) eqn:Hid.
      * pose proof (indexById_frame w id operator
                      (logged operator AddressZero to id s)) as [F _].
        destruct (indexById w id operator (logged operator AddressZero to id s))
          as [[[e|]|y] s1] eqn:Hix.
        -- rewrite (on_TransferSingle_failed w _ _ _ _ _ _ Hid Hix).
           discriminate.
        -- rewrite (on_TransferSingle_indexed w _ _ _ _ _ Hid Hix).
           discriminate.
        -- rewrite (on_TransferSingle_raised w _ _ _ _ _ _ Hid Hix).
           intros _. exact F.
      * rewrite (on_TransferSingle_overflow w _ _ _ _ Hid). reflexivity.
    + rewrite (on_TransferSingle_other w _ _ _ _ _ E). discriminate.
Qed.

(** A mint event whose metadata request answers with a failure status is
    put on the queue. *)
Lemma on_TransferSingle_outcome_witness :
  on_TransferSingle gateway_down alice AddressZero alice 1 (start empty_db)
  = (Ret tt,
     enqueued 1 msg_fetch alice
       (snd (indexById gateway_down 1 alice
               (logged alice AddressZero alice 1 (start empty_db))))).
Proof.
  apply (proj1 (on_TransferSingle_outcome gateway_down alice AddressZero
                  alice 1 (start empty_db))); reflexivity.
Defined.

(** C4, as stated, fails: a mint event whose metadata body is not JSON makes
    the handler raise. *)
Lemma on_TransferSingle_parse_error :
  ~ never_raises gateway_garbled alice AddressZero alice 1 (start empty_db).
Proof. unfold never_raises. cbn. discriminate. Qed.

(** ... and leaves no Queue Entry behind. *)
Lemma garbled_mint_run :
  on_TransferSingle gateway_garbled alice AddressZero alice 1
    (start empty_db)
  = (Thrown SyntaxError,
     mkSt empty_db
       [EConsole (LogOperator alice); EConsole (LogFrom AddressZero);
        EConsole (LogTo alice); EConsole (LogId 1); EUri 1;
        EHttpGet "https://nftstorage.link/ipfs/bafymidi"] 2%nat []).
Proof. reflexivity. Qed.

(** ** The queue drain *)

(** Below 2^53 the addition of numbers is the addition of integers. *)
Lemma js_succ_exact a :
  Z.abs a < 2 ^ 53 -> js_add (js_number a) 1 = a + 1.
Proof.
  intros H. unfold js_add, js_number.
  assert (E : round_double a = a).
  { unfold round_double. cbv zeta.
    destruct (Z.ltb_spec (Z.abs a) (2 ^ 53)); [reflexivity | lia]. }
  rewrite E. unfold round_double. cbv zeta.
  destruct (Z.ltb_spec (Z.abs (a + 1)) (2 ^ 53)); [reflexivity|].
  change (2 ^ 53) with 9007199254740992 in *.
  assert (a = 9007199254740991) by lia. subst a. reflexivity.
Qed.

(** From 2^53 on it is not: 2^53 + 1 is 2^53, and 2^53 + 2 + 1 is
    2^53 + 4. *)
Lemma js_add_rounds :
  js_add (js_number (2 ^ 53)) 1 = 2 ^ 53
  /\ js_add (js_number (2 ^ 53 + 2)) 1 = 2 ^ 53 + 4.
Proof. split; reflexivity. Qed.

Lemma retry_failed w row s e s1 :
  indexById w (entry_id row) (entry_operator row) s = (Ret (Some e), s1) ->
  retry w row s
  = (Ret tt,
     updated (entry_id row) (js_add (js_number (entry_attempts row)) 1) e s1).
Proof.
  intros H. unfold retry. erewrite bind_Ret by exact H. cbn.
  rewrite (indexById_error_truthy _ _ _ _ _ _ H). reflexivity.
Qed.

Lemma retry_indexed w row s s1 :
  indexById w (entry_id row) (entry_operator row) s = (Ret None, s1) ->
  retry w row s = (Ret tt, s1).
Proof. intros H. unfold retry. erewrite bind_Ret by exact H. reflexivity. Qed.

Lemma retry_raised w row s x s1 :
  indexById w (entry_id row) (entry_operator row) s = (Thrown x, s1) ->
  retry w row s = (Thrown x, s1).
Proof.
  intros H. unfold retry. erewrite bind_Thrown by exact H. reflexivity.
Qed.

(** The loop is sequential: the rows after [pre] are retried from the state
    in which the retries of [pre] have completed. *)
Lemma drain_loop_app w pre post :
  forall s sa,
    drain_loop w pre s = (Ret tt, sa) ->
    drain_loop w (pre ++ post) s = drain_loop w post sa.
Proof.
  induction pre as [| row pre IH]; intros s sa H.
  - cbn in H. inversion H. reflexivity.
  - cbn [drain_loop app] in *. unfold bind in *.
    destruct (retry w row s) as [[[]|x] s1]; [|discriminate H].
    now apply IH.
Qed.

Lemma drain_run w s :
  drain w s = drain_loop w (firstn 10 (queue (db s))) (fetched 10 s).
Proof. reflexivity. Qed.

Lemma midi_grows_refl s : midi_grows s s.
Proof. exists []. now rewrite app_nil_r. Qed.

Lemma midi_grows_trans s1 s2 s3 :
  midi_grows s1 s2 -> midi_grows s2 s3 -> midi_grows s1 s3.
Proof.
  intros [l1 H1] [l2 H2]. exists (l1 ++ l2)%list.
  now rewrite H2, H1, app_assoc.
Qed.

Lemma midi_grows_has_token id s s' :
  midi_grows s s' -> has_token id (db s) = true -> has_token id (db s') = true.
Proof.
  intros [l H]. unfold has_token. rewrite H, existsb_app.
  intros ->. reflexivity.
Qed.

Lemma indexById_midi_grows w id operator s :
  midi_grows s (snd (indexById w id operator s)).
Proof.
  destruct (fst (indexById w id operator s)) as [[e|]|x] eqn:E.
  - exists []. rewrite app_nil_r. apply indexById_failure.
    rewrite E. discriminate.
  - destruct (indexById_success w id operator s E) as [d [m [_ H]]].
    eexists. exact H.
  - exists []. rewrite app_nil_r. apply indexById_failure.
    rewrite E. discriminate.
Qed.

Lemma retry_midi_grows w row s : midi_grows s (snd (retry w row s)).
Proof.
  pose proof (indexById_midi_grows w (entry_id row) (entry_operator row) s)
    as G.
  destruct (indexById w (entry_id row) (entry_operator row) s)
    as [[[e|]|x] s1] eqn:E; cbn in G.
  - rewrite (retry_failed _ _ _ _ _ E). cbn.
    destruct G as [l G]. exists l. exact G.
  - now rewrite (retry_indexed _ _ _ _ E).
  - now rewrite (retry_raised _ _ _ _ _ E).
Qed.

Lemma drain_loop_midi_grows w rows :
  forall s, midi_grows s (snd (drain_loop w rows s)).
Proof.
  induction rows as [| row rows IH]; intros s.
  - apply midi_grows_refl.
  - cbn [drain_loop]. unfold bind.
    pose proof (retry_midi_grows w row s) as G.
    destruct (retry w row s) as [[[]|x] s1]; cbn in G.
    + eapply midi_grows_trans; [exact G | apply IH].
    + exact G.
Qed.

Lemma indexById_has_token w id operator s s1 :
  indexById w id operator s = (Ret None, s1) ->
  has_token id (db s1) = true.
Proof.
  intros H. pose proof (indexById_success w id operator s) as S.
  rewrite H in S. destruct (S eq_refl) as [d [m [_ E]]]. cbn in E.
  unfold has_token. rewrite E, existsb_app. cbn.
  rewrite Z.eqb_refl. apply orb_true_r.
Qed.

Lemma drain_at w s pre row post sa :
  firstn 10 (queue (db s)) = (pre ++ row :: post)%list ->
  drain_loop w pre (fetched 10 s) = (Ret tt, sa) ->
  drain w s = (retry w row ;; drain_loop w post) sa.
Proof.
  intros Hbatch Hpre. rewrite drain_run, Hbatch.
  now rewrite (drain_loop_app w pre (row :: post) _ _ Hpre).
Qed.

(** C8, as amended.  One tick fetches a batch of at most 10 entries and
    runs the loop on it.  Whenever the batch is [pre ++ row :: post] and the
    retries of [pre] have completed in state [sa], the retry of [row] runs
    from [sa], and the rest of the tick is the loop on [post] from the state
    the retry of [row] left: after [update(row.id, row.attempts + 1, e)]
    when it returned the error [e], with no update when it succeeded.  The
    sum is a sum of numbers: it is the attempt count plus one whenever the
    count is below 2^53.  A retry that raises ends the tick. *)
Theorem drain_tick w s :
  let batch := firstn 10 (queue (db s)) in
  (List.length batch <= 10)%nat
  /\ drain w s = drain_loop w batch (fetched 10 s)
  /\ forall pre row post sa,
       batch = (pre ++ row :: post)%list ->
       drain_loop w pre (fetched 10 s) = (Ret tt, sa) ->
       (forall e sb,
          indexById w (entry_id row) (entry_operator row) sa
          = (Ret (Some e), sb) ->
          drain w s
          = drain_loop w post
              (updated (entry_id row)
                 (js_add (js_number (entry_attempts row)) 1) e sb))
       /\ (Z.abs (entry_attempts row) < 2 ^ 53 ->
           js_add (js_number (entry_attempts row)) 1 = entry_attempts row + 1)
       /\ (forall sb,
             indexById w (entry_id row) (entry_operator row) sa
             = (Ret None, sb) ->
             drain w s = drain_loop w post sb)
       /\ (forall x sb,
             indexById w (entry_id row) (entry_operator row) sa
             = (Thrown x, sb) ->
             drain w s = (Thrown x, sb)).
Proof.
  intros batch. split; [apply firstn_le_length|].
  split; [reflexivity|].
  intros pre row post sa Hbatch Hpre.
  rewrite (drain_at w s pre row post sa Hbatch Hpre).
  split; [|split; [|split]].
  - intros e sb H. unfold bind at 1.
    now rewrite (retry_failed _ _ _ _ _ H).
  - apply js_succ_exact.
  - intros sb H. unfold bind at 1. now rewrite (retry_indexed _ _ _ _ H).
  - intros x sb H. unfold bind at 1. now rewrite (retry_raised _ _ _ _ _ H).
Qed.

(** With the gateway down and entries for tokens 4, 5 and 6 queued: the
    retry of the entry for 5 starts when that of the entry for 4 has
    completed (its update included), fails again, the entry is updated to
    one attempt, and the entry for 6 is retried from there.  All three end
    at one attempt. *)
Lemma drain_tick_witness :
  drain gateway_down (start db_q4_q5_q6)
  = drain_loop gateway_down [mkEntry 6 alice msg_fetch 0]
      (updated 5 1 msg_fetch
         (snd (indexById gateway_down 5 alice
                 (snd (drain_loop gateway_down [mkEntry 4 alice msg_fetch 0]
                         (fetched 10 (start db_q4_q5_q6)))))))
  /\ map entry_attempts
       (queue (db (snd (drain gateway_down (start db_q4_q5_q6)))))
     = [1; 1; 1].
Proof.
  destruct (drain_tick gateway_down (start db_q4_q5_q6)) as [_ [_ H]].
  assert (Hpre : drain_loop gateway_down [mkEntry 4 alice msg_fetch 0]
                   (fetched 10 (start db_q4_q5_q6))
                 = (Ret tt,
                    snd (drain_loop gateway_down [mkEntry 4 alice msg_fetch 0]
                           (fetched 10 (start db_q4_q5_q6)))))
    by (vm_compute; reflexivity).
  destruct (H [mkEntry 4 alice msg_fetch 0] (mkEntry 5 alice msg_fetch 0)
              [mkEntry 6 alice msg_fetch 0] _ eq_refl Hpre) as [Hfail _].
  split; [|vm_compute; reflexivity].
  apply (Hfail msg_fetch). vm_compute. reflexivity.
Defined.

(** C8, as stated, fails: with a gateway whose answers are not JSON the
    retry of the entry for token 4 raises, no update is made, and the entry
    for token 5, fetched in the same batch, is not re-attempted. *)
Lemma drain_raise_ends_tick :
  ~ reattempts_batch gateway_garbled (start db_q4_q5).
Proof.
  unfold reattempts_batch. intros H.
  destruct (H (mkEntry 5 alice msg_fetch 0)) as [new [Hext Hin]].
  - cbn. auto.
  - unfold extends in Hext. cbn in Hext. subst new. cbn in Hin.
    repeat (destruct Hin as [Hin | Hin]; try discriminate Hin).
    exact Hin.
Qed.

(** ... the tick in full. *)
Lemma garbled_tick_run :
  drain gateway_garbled (start db_q4_q5)
  = (Thrown SyntaxError,
     mkSt db_q4_q5
       [EQueueFetch 10; EUri 4;
        EHttpGet "https://nftstorage.link/ipfs/bafymidi"] 2%nat []).
Proof. reflexivity. Qed.

(** C3, as amended.  A mint event (with a representable id) whose indexing
    returns the error [e] leaves the handler with exactly one more Queue Entry: the
    entry for its id and operator, with message [e] and attempt count 0.
    And when, in a drain tick, the retry of a fetched entry succeeds, a
    Token Record for its id exists when the retry returns and still exists
    at the end of the tick. *)
Theorem queue_correctness :
  (forall w operator to id s e s1,
     safe_integer id = true ->
     indexById w id operator (logged operator AddressZero to id s)
     = (Ret (Some e), s1) ->
     let h := on_TransferSingle w operator AddressZero to id s in
     fst h = Ret tt
     /\ queue (db (snd h))
        = (queue (db s) ++ [mkEntry id operator e 0])%list)
  /\ (forall w s pre row post sa sb,
        firstn 10 (queue (db s)) = (pre ++ row :: post)%list ->
        drain_loop w pre (fetched 10 s) = (Ret tt, sa) ->
        indexById w (entry_id row) (entry_operator row) sa = (Ret None, sb) ->
        has_token (entry_id row) (db sb) = true
        /\ has_token (entry_id row) (db (snd (drain w s))) = true).
Proof.
  split.
  - intros w operator to id s e s1 Hid Hix h. subst h.
    rewrite (on_TransferSingle_failed w _ _ _ _ _ _ Hid Hix). cbn.
    split; [reflexivity|].
    pose proof (indexById_frame w id operator
                  (logged operator AddressZero to id s)) as [F _].
    rewrite Hix in F. cbn in F. now rewrite F.
  - intros w s pre row post sa sb Hbatch Hpre Hix.
    pose proof (indexById_has_token _ _ _ _ _ Hix) as T.
    split; [exact T|].
    rewrite (drain_at w s pre row post sa Hbatch Hpre).
    unfold bind at 1. rewrite (retry_indexed _ _ _ _ Hix).
    eapply midi_grows_has_token; [apply drain_loop_midi_grows | exact T].
Qed.

(** The gateway is down when token 4 is minted: the event leaves the Queue
    Entry [(4, alice, msg_fetch, 0)].  The gateway is back at the next tick:
    the retry succeeds and token 4 has its Token Record. *)
Lemma queue_correctness_witness :
  queue (db (snd (on_TransferSingle gateway_down alice AddressZero alice 4
                    (start empty_db))))
  = [mkEntry 4 alice msg_fetch 0]
  /\ has_token 4 (db (snd (drain healthy (start db_q4)))) = true.
Proof.
  destruct queue_correctness as [Hfail Hretry]. split.
  - apply (Hfail gateway_down alice alice 4 (start empty_db) msg_fetch
             (snd (indexById gateway_down 4 alice
                     (logged alice AddressZero alice 4 (start empty_db)))));
      vm_compute; reflexivity.
  - apply (Hretry healthy (start db_q4) [] (mkEntry 4 alice msg_fetch 0) []
             (fetched 10 (start db_q4))
             (snd (indexById healthy 4 alice (fetched 10 (start db_q4)))));
      vm_compute; reflexivity.
Defined.

(** ** The reconciliation sweep *)

Lemma includes_In xs x : includes xs x = true <-> In x xs.
Proof.
  unfold includes. rewrite existsb_exists. split.
  - intros [y [Hy E]]. apply Z.eqb_eq in E. now subst.
  - intros H. exists x. split; [assumption | apply Z.eqb_refl].
Qed.

Lemma tokenIDs_In n id : In id (tokenIDs n) <-> 1 <= id <= n.
Proof.
  unfold tokenIDs. rewrite in_map_iff. split.
  - intros [k [<- Hk]]. apply in_seq in Hk. lia.
  - intros H. exists (Z.to_nat id). split; [lia|]. apply in_seq. lia.
Qed.

Lemma unqueueDiff_In cur dbRowIDs queueIDs id :
  In id (unqueueDiff cur dbRowIDs queueIDs)
  <-> 1 <= id <= cur /\ ~ In id dbRowIDs /\ ~ In id queueIDs.
Proof.
  unfold unqueueDiff. rewrite !filter_In, tokenIDs_In, !negb_true_iff.
  rewrite <- !not_true_iff_false, !includes_In. tauto.
Qed.

Lemma unqueueDiff_NoDup cur dbRowIDs queueIDs :
  NoDup (unqueueDiff cur dbRowIDs queueIDs).
Proof.
  unfold unqueueDiff, tokenIDs. do 2 apply NoDup_filter.
  apply Injective_map_NoDup; [|apply seq_NoDup].
  intros a b. apply Nat2Z.inj.
Qed.

Lemma find_event_state id evs s : snd (find_event id evs s) = s.
Proof.
  induction evs as [| e evs IH]; cbn; [reflexivity|].
  unfold toNumber, bind, ret, throw.
  destruct (safe_integer (ev_id e)); [|reflexivity].
  destruct (ev_id e =? id); [reflexivity | exact IH].
Qed.

Lemma fetchOriginalMinter_frame w id s :
  let s' := snd (fetchOriginalMinter w id s) in
  db s' = db s /\ pending s' = pending s.
Proof.
  unfold fetchOriginalMinter, queryFilter. unfold_m. cbn.
  destruct (chain_log w (clock s)) as [log|]; cbn; auto.
  match goal with |- context [find_event id ?evs ?s0] =>
    pose proof (find_event_state id evs s0) as P;
    destruct (find_event id evs s0) as [[[e|]|x] s1]
  end; cbn in P; subst s1; cbn; auto.
Qed.

Lemma sync_read w s cur :
  chain_currentTokenId w (clock s) = Some cur ->
  sync w s
  = (n <- toNumber cur ;;
     if negb (n =? Z.of_nat (List.length (midi (db s)))) then
       ids <- array_from n ;;
       sync_loop w
         (filter (fun id => negb (includes
                                    (map entry_id (firstn 1000 (queue (db s))))
                                    id))
            (filter (fun id => negb (includes (map token_id (midi (db s))) id))
               ids))
     else ret tt) (polled s).
Proof.
  intros H. unfold sync, polled. unfold_m. cbn. rewrite H. cbn.
  repeat rewrite <- app_assoc. reflexivity.
Qed.

Lemma sync_run w s cur :
  chain_currentTokenId w (clock s) = Some cur ->
  sync w s
  = (n <- toNumber cur ;;
     if negb (n =? Z.of_nat (List.length (midi (db s)))) then
       if n <? 2 ^ 32 then sync_loop w (missing n s) else throw RangeError
     else ret tt) (polled s).
Proof.
  intros H. rewrite (sync_read w s cur H). unfold toNumber.
  destruct (safe_integer cur); [|reflexivity].
  unfold bind at 1 3. unfold ret at 1 3.
  destruct (negb _); [|reflexivity].
  unfold array_from. destruct (cur <? 2 ^ 32); reflexivity.
Qed.


(** An id whose lookup finds no operator ends the loop: the ids after it
    play no part in what the loop does. *)
Lemma sync_loop_stops w id rest s operator s1 :
  fetchOriginalMinter w id s = (Ret operator, s1) ->
  truthy_error operator = false ->
  sync_loop w (id :: rest) s
  = (Ret tt, mkSt (db s1)
               (trace s1 ++ [EConsole (FailedFetchingOperator id)])
               (clock s1) (pending s1)).
Proof.
  intros H F. cbn [sync_loop]. erewrite bind_Ret by exact H.
  rewrite F. reflexivity.
Qed.




Lemma sync_loop_db w ids : forall s, db (snd (sync_loop w ids s)) = db s.
Proof.
  induction ids as [| id ids IH]; intros s; cbn [sync_loop]; [reflexivity|].
  pose proof (fetchOriginalMinter_frame w id s) as [Fd _].
  unfold bind at 1.
  destruct (fetchOriginalMinter w id s) as [[operator|x] s1]; cbn in Fd;
    [|exact Fd].
  destruct (truthy_error operator).
  - unfold bind, spawn. rewrite IH. exact Fd.
  - exact Fd.
Qed.

Lemma sync_db w s : db (snd (sync w s)) = db s.
Proof.
  destruct (chain_currentTokenId w (clock s)) as [cur|] eqn:E.
  - rewrite (sync_run w s cur E). unfold toNumber.
    destruct (safe_integer cur); [|reflexivity].
    unfold bind at 1. unfold ret at 1.
    destruct (negb _); [|reflexivity].
    destruct (cur <? 2 ^ 32); [now rewrite sync_loop_db | reflexivity].
  - unfold sync. unfold_m. cbn. now rewrite E.
Qed.

Lemma run_calls_queue w calls :
  forall s, queue (db (run_calls w calls s)) = queue (db s).
Proof.
  induction calls as [| [id operator] calls IH]; intros s; cbn [run_calls];
    [reflexivity|].
  rewrite IH. apply indexById_frame.
Qed.

(** A sweep never creates or updates a Queue Entry. *)
Lemma sweep_queue w s : queue (db (sweep w s)) = queue (db s).
Proof.
  unfold sweep, run_pending. rewrite run_calls_queue. cbn.
  now rewrite sync_db.
Qed.

(** C10.  When the counter equals the number of Token Record rows, [sync]
    ends in the state [polled]: the three reads and nothing else, no minter
    lookup, no [indexById] started, the database as it was.  With no call
    pending from before, the whole sweep ends there. *)
Theorem sync_gated w s cur :
  chain_currentTokenId w (clock s) = Some cur ->
  cur = Z.of_nat (List.length (midi (db s))) ->
  snd (sync w s) = polled s
  /\ (pending s = [] -> sweep w s = polled s).
Proof.
  intros Hcur Heq.
  assert (S : snd (sync w s) = polled s).
  { rewrite (sync_run w s cur Hcur). unfold toNumber.
    destruct (safe_integer cur); [|reflexivity].
    unfold bind at 1. unfold ret at 1.
    rewrite <- Heq, Z.eqb_refl. reflexivity. }
  split; [exact S|].
  intros Hp. unfold sweep, run_pending. rewrite S. cbn [polled pending].
  rewrite Hp. cbn. unfold polled. now rewrite Hp.
Qed.

(** Two tokens on chain, Token Records for 1 and 7: token 2 is missing, the
    counts agree, and the sweep does nothing. *)
Lemma sync_gated_witness :
  missing 2 (start db_1_7) = [2]
  /\ sweep chain_2 (start db_1_7) = polled (start db_1_7).
Proof.
  split; [reflexivity|].
  apply (sync_gated chain_2 (start db_1_7) 2); reflexivity.
Defined.




(** ... it looks token 2 up and stops there. *)
Lemma chain_5_lookups :
  lookups chain_5 (start db_1_3_q4) = 1%nat
  /\ missing 5 (start db_1_3_q4) = [2; 5].
Proof. split; reflexivity. Qed.

(** C2: the code at the failing input.  Two tokens on chain, nothing
    indexed, the log lacks the mint of token 1.  Tokens 1 and 2 are missing;
    the sweep looks token 1 up, prints its failure and returns: there is no
    second [queryFilter], token 2 is never looked up nor indexed. *)
Theorem sync_stops_at_first_miss :
  missing 2 (start empty_db) = [1; 2]
  /\ sync chain_2 (start empty_db)
     = (Ret tt,
        mkSt empty_db
          [ECurrentTokenId; EMidiFetch; EQueueFetch 1000;
           EQueryFilter 7853362; EConsole TargetEventFound;
           EConsole (FailedFetchingOperator 1)] 2%nat [])
  /\ lookups chain_2 (start empty_db) = 1%nat
  /\ ~ sweep_continues chain_2 (start empty_db) 2.
Proof.
  split; [reflexivity|]. split; [reflexivity|]. split; [reflexivity|].
  unfold sweep_continues. vm_compute. discriminate.
Qed.

(** C9: the code at the failing input.  One token on chain, minted by
    [alice], not indexed; its metadata names no device.  The sweep starts
    [indexById] for it, the call returns the missing-device error, and
    afterwards token 1 has no Token Record, no Queue Entry and no logged
    skip.  No sweep ever writes the queue. *)
Theorem sweep_drops_failure :
  (forall w s, queue (db (sweep w s)) = queue (db s))
  /\ attempted chain_nameless (start empty_db) = [1]
  /\ fst (indexById chain_nameless 1 alice
            (snd (sync chain_nameless (start empty_db))))
     = Ret (Some msg_no_device)
  /\ sweep chain_nameless (start empty_db)
     = mkSt empty_db
         [ECurrentTokenId; EMidiFetch; EQueueFetch 1000;
          EQueryFilter 7853362; EUri 1;
          EHttpGet "https://nftstorage.link/ipfs/bafymidi";
          EConsole (MetadataIs (JDoc (document Undefined (Str "Moog"))))]
         4%nat []
  /\ accounted 1 (sweep chain_nameless (start empty_db)) = false.
Proof.
  split; [exact sweep_queue|]. repeat split; reflexivity.
Qed.

(** * Further properties *)

(** ** The uri rewrite (line 29) *)

Lemma strip_prefix_app p r : strip_prefix p (p ++ r) = Some r.
Proof.
  induction p as [| a p IH]; cbn; [now destruct r|].
  now rewrite Ascii.eqb_refl.
Qed.

Lemma strip_prefix_Some p : forall s r, strip_prefix p s = Some r -> s = p ++ r.
Proof.
  induction p as [| a p IH]; intros s r H.
  - destruct s; cbn in H; now inversion H.
  - destruct s as [| b s]; cbn in H; [discriminate H|].
    destruct (Ascii.eqb_spec a b) as [-> |]; [|discriminate H].
    cbn. f_equal. now apply IH.
Qed.

(** X1.  [replace] rewrites the leftmost occurrence of the pattern and
    nothing else: if [pre ++ pat ++ rest] has no occurrence of [pat]
    starting before the one shown, the result is [pre ++ rep ++ rest],
    whatever [rest] holds (a later [ipfs://] stays). *)
Theorem replace_leftmost pat rep pre rest :
  (forall pre' rest',
     pre ++ pat ++ rest = pre' ++ pat ++ rest' ->
     (String.length pre <= String.length pre')%nat) ->
  replace pat rep (pre ++ pat ++ rest) = pre ++ rep ++ rest.
Proof.
  induction pre as [| c pre IH]; intros Hleft.
  - cbn [append]. destruct (pat ++ rest) eqn:E;
      cbn [replace]; rewrite <- E, strip_prefix_app; reflexivity.
  - cbn [append]. cbn [replace].
    destruct (strip_prefix pat (String c (pre ++ pat ++ rest))) as [r|] eqn:E.
    + apply strip_prefix_Some in E.
      specialize (Hleft "" r E). cbn in Hleft. lia.
    + f_equal. apply IH. intros pre' rest' H.
      assert (H' : String c pre ++ pat ++ rest = String c pre' ++ pat ++ rest')
        by (cbn; now f_equal).
      specialize (Hleft _ _ H'). cbn in Hleft. lia.
Qed.

(** An [ipfs://] uri is served from the gateway; a second [ipfs://] in it is
    left alone. *)
Lemma replace_leftmost_witness :
  gateway "ipfs://bafy/ipfs://x" = "https://nftstorage.link/ipfs/bafy/ipfs://x".
Proof.
  apply (replace_leftmost "ipfs://" "https://nftstorage.link/ipfs/" ""
           "bafy/ipfs://x").
  intros pre' rest' _. cbn. lia.
Defined.

(** X2.  A string in which the pattern does not occur is passed through
    unchanged. *)
Theorem replace_absent pat rep u :
  (forall pre rest, u <> pre ++ pat ++ rest) ->
  replace pat rep u = u.
Proof.
  induction u as [| c u IH]; intros Habs.
  - cbn. destruct (strip_prefix pat "") as [r|] eqn:E; [|reflexivity].
    apply strip_prefix_Some in E. now elim (Habs "" r).
  - cbn [replace].
    destruct (strip_prefix pat (String c u)) as [r|] eqn:E.
    + apply strip_prefix_Some in E. now elim (Habs "" r).
    + f_equal. apply IH. intros pre rest H.
      apply (Habs (String c pre) rest). cbn. now f_equal.
Qed.

(** A uri of another scheme reaches [fetch] as it is. *)
Lemma replace_absent_witness : gateway arweave = arweave.
Proof.
  apply (replace_absent "ipfs://" "https://nftstorage.link/ipfs/" arweave).
  intros pre rest H.
  destruct pre as [| c0 [| c1 [| c2 [| c3 [| c4 [| c5 [| c6 pre]]]]]]];
    cbn in H; discriminate H.
Defined.

(** ** [fetchMetadata] *)

(** X3.  [fetchMetadata] returns [undefined] exactly when the gateway
    answered with a failure status, whatever the body: a body that is not
    JSON is never parsed then.  It returns a document exactly when the
    status is a success and the body parses, and the document is the parsed
    body itself. *)
Theorem fetchMetadata_result w id s :
  (fst (fetchMetadata w id s) = Ret None
   <-> exists u res,
         chain_uri w (clock s) id = Some u
         /\ http_get w (S (clock s)) (gateway u) = Some res
         /\ ok res = false)
  /\ (forall j,
        fst (fetchMetadata w id s) = Ret (Some j)
        <-> exists u res,
              chain_uri w (clock s) id = Some u
              /\ http_get w (S (clock s)) (gateway u) = Some res
              /\ ok res = true /\ body res = Some j).
Proof.
  split; [|intros j]; split.
  - unfold fetchMetadata. run; intros H; try discriminate H.
    eexists; eexists. split; [reflexivity|]. split; [eassumption|].
    now destruct (ok _).
  - intros [u [res [H1 [H2 H3]]]]. unfold fetchMetadata. unfold_m. cbn.
    rewrite H1. cbn. rewrite H2. cbn. rewrite H3. reflexivity.
  - unfold fetchMetadata. run; intros H; try discriminate H.
    inversion H; subst. eexists; eexists. split; [reflexivity|].
    split; [eassumption|]. split; [now destruct (ok _) | assumption].
  - intros [u [res [H1 [H2 [H3 H4]]]]]. unfold fetchMetadata. unfold_m. cbn.
    rewrite H1. cbn. rewrite H2. cbn. rewrite H3. cbn. rewrite H4.
    reflexivity.
Qed.

(** X4.  One call of [fetchMetadata] reads the uri of [id] first and once,
    sends at most one request (there is no retry), calls the database not at
    all and leaves it, and the pending calls, as they were. *)
Theorem fetchMetadata_requests w id s :
  let s' := snd (fetchMetadata w id s) in
  db s' = db s
  /\ pending s' = pending s
  /\ exists tail,
       trace s' = (trace s ++ EUri id :: tail)%list
       /\ count is_uri tail = 0%nat
       /\ (count is_http tail <= 1)%nat
       /\ count is_db_call tail = 0%nat.
Proof.
  unfold fetchMetadata. run; (split; [reflexivity|]);
    (split; [reflexivity|]); repeat rewrite <- app_assoc; cbn;
    eexists; (split; [reflexivity|]); cbn; auto.
Qed.

(** ** [indexById] *)

Lemma indexById_raise_db w id operator s x :
  fst (indexById w id operator s) = Thrown x ->
  snd (indexById w id operator s)
  = mkSt (db s) (trace (snd (indexById w id operator s)))
      (clock (snd (indexById w id operator s))) (pending s)
  /\ exists new,
       extends s (snd (indexById w id operator s)) new
       /\ count is_db_call new = 0%nat.
Proof.
  unfold indexById, fetchMetadata, extends. run; intros H;
    try discriminate H; (split; [reflexivity|]);
    repeat rewrite <- app_assoc; cbn; eexists; (split; [reflexivity|]);
    reflexivity.
Qed.

(** X5.  Whenever [indexById] raises, it has not yet called the database:
    every rejection comes from the resolution of the metadata, and the
    database and the pending calls are exactly as before. *)
Theorem indexById_raise_clean w id operator s x :
  fst (indexById w id operator s) = Thrown x ->
  let s' := snd (indexById w id operator s) in
  db s' = db s
  /\ pending s' = pending s
  /\ exists new, extends s s' new /\ count is_db_call new = 0%nat.
Proof.
  intros H s'. subst s'.
  destruct (indexById_raise_db w id operator s x H) as [E N].
  split; [now rewrite E|]. split; [now rewrite E | exact N].
Qed.

(** A body that is not JSON: the call raises, the database has not been
    touched. *)
Lemma indexById_raise_clean_witness :
  db (snd (indexById gateway_garbled 1 alice (start db_1_3_q4))) = db_1_3_q4.
Proof.
  apply (indexById_raise_clean gateway_garbled 1 alice (start db_1_3_q4)
           SyntaxError).
  reflexivity.
Defined.

(** X6.  The database calls of one [indexById], in order, are one of: none;
    a lookup by name and the token write (the device exists); a lookup and a
    device creation (the creation failed); a lookup, a creation and the
    token write.  The creation is for the name looked up, the token write
    for [id] and [operator].  No queue operation, no second write. *)
Theorem indexById_db_calls w id operator s :
  exists new,
    extends s (snd (indexById w id operator s)) new
    /\ (filter is_db_call new = []
        \/ exists name,
             (exists dev,
                filter is_db_call new
                = [EDevicesFetchByName name; EMidiCreate id dev operator])
             \/ exists manu,
                  filter is_db_call new
                  = [EDevicesFetchByName name; EDevicesCreate name manu]
                  \/ exists dev,
                       filter is_db_call new
                       = [EDevicesFetchByName name; EDevicesCreate name manu;
                          EMidiCreate id dev operator]).
Proof.
  unfold indexById, fetchMetadata, extends. run;
    repeat rewrite <- app_assoc; cbn; eexists; (split; [reflexivity|]); cbn;
    try (left; reflexivity); right; eexists;
    try (left; eexists; reflexivity);
    right; eexists;
    try (left; reflexivity);
    right; eexists; reflexivity.
Qed.

Lemma indexById_found w id operator s s1 m p name d :
  fetchMetadata w id s = (Ret (Some (JDoc m)), s1) ->
  properties m = Some p ->
  device p = Str name ->
  name <> "" ->
  find (fun r => String.eqb (device_name r) name) (devices (db s)) = Some d ->
  indexById w id operator s
  = match midi_create_error w (clock s1) id with
    | Some err =>
        (Ret (Some (msg_midi err)),
         mkSt (db s1)
           (trace s1 ++ [EDevicesFetchByName name;
                         EMidiCreate id (device_id d) operator;
                         EConsole (ErrorUpdatingMidi err)])
           (S (clock s1)) (pending s1))
    | None =>
        (Ret None,
         mkSt (mkDB (devices (db s1))
                 (midi (db s1) ++ [mkToken id m (device_id d) operator])
                 (queue (db s1)))
           (trace s1 ++ [EDevicesFetchByName name;
                         EMidiCreate id (device_id d) operator])
           (S (clock s1)) (pending s1))
    end.
Proof.
  intros Hfetch Hp Hd Hname Hfind.
  pose proof (fetchMetadata_db _ _ _ _ _ Hfetch) as Hdb.
  unfold indexById. erewrite bind_Ret by exact Hfetch. cbn beta iota.
  rewrite Hp. cbn [from_option]. unfold bind at 1. unfold ret at 1.
  rewrite Hd. cbn [truthy db_text].
  destruct name as [| c name]; [now elim Hname|]. cbn [truthy_string].
  unfold_m. cbn. rewrite Hdb, Hfind. cbn.
  destruct (midi_create_error w (clock s1) id) as [err|]; cbn;
    repeat rewrite <- app_assoc; reflexivity.
Qed.

Lemma fetchMetadata_no_create w id s r s1 :
  fetchMetadata w id s = (r, s1) ->
  exists l,
    trace s1 = (trace s ++ l)%list
    /\ forall n manu, ~ In (EDevicesCreate n manu) l.
Proof.
  unfold fetchMetadata. run; intros H; inversion H; subst; cbn;
    repeat rewrite <- app_assoc; cbn; eexists; (split; [reflexivity|]);
    intros n manu; cbn; intuition discriminate.
Qed.

(** X7.  When a Device Record of the document's device name exists,
    [indexById] creates none and does not ask for one; on success the one
    new Token Record refers to the first Device Record of that name, and on
    failure the database is as it was. *)
Theorem indexById_reuses_device w id operator s s1 m p name d :
  fetchMetadata w id s = (Ret (Some (JDoc m)), s1) ->
  properties m = Some p ->
  device p = Str name ->
  name <> "" ->
  find (fun r => String.eqb (device_name r) name) (devices (db s)) = Some d ->
  let r := fst (indexById w id operator s) in
  let s' := snd (indexById w id operator s) in
  devices (db s') = devices (db s)
  /\ (forall new n manu,
        extends s s' new -> ~ In (EDevicesCreate n manu) new)
  /\ (r = Ret None ->
      midi (db s') = (midi (db s) ++ [mkToken id m (device_id d) operator])%list)
  /\ (r <> Ret None -> db s' = db s).
Proof.
  intros Hfetch Hp Hd Hname Hfind r s'. subst r s'.
  pose proof (fetchMetadata_db _ _ _ _ _ Hfetch) as Hdb.
  destruct (fetchMetadata_no_create _ _ _ _ _ Hfetch) as [l [Htr Hl]].
  rewrite (indexById_found w id operator s s1 m p name d
             Hfetch Hp Hd Hname Hfind).
  assert (Hnew : forall tl new n manu,
            (forall n' manu', ~ In (EDevicesCreate n' manu') tl) ->
            (trace s1 ++ tl)%list = (trace s ++ new)%list ->
            ~ In (EDevicesCreate n manu) new).
  { intros tl new n manu Htl Hext. rewrite Htr, <- app_assoc in Hext.
    apply app_inv_head in Hext. subst new. intros Hin.
    apply in_app_or in Hin. destruct Hin as [Hin | Hin];
      [now apply (Hl n manu) | now apply (Htl n manu)]. }
  destruct (midi_create_error w (clock s1) id) as [err|]; cbn.
  - split; [now rewrite Hdb|]. split.
    + intros new n manu Hext. eapply Hnew; [|exact Hext].
      intros n' manu'. cbn. intuition discriminate.
    + split; [intros H; discriminate H | intros _; exact Hdb].
  - split; [now rewrite Hdb|]. split.
    + intros new n manu Hext. eapply Hnew; [|exact Hext].
      intros n' manu'. cbn. intuition discriminate.
    + split; [intros _; now rewrite Hdb | intros H; now elim H].
Qed.

(** A second token of the Minimoog: no device is created, the new Token
    Record refers to device 1. *)
Lemma indexById_reuses_device_witness :
  devices (db (snd (indexById healthy 2 alice (start db_1))))
  = devices db_1
  /\ midi (db (snd (indexById healthy 2 alice (start db_1))))
     = [mkToken 1 moog 1 alice; mkToken 2 moog 1 alice].
Proof.
  destruct (indexById_reuses_device healthy 2 alice (start db_1)
              (snd (fetchMetadata healthy 2 (start db_1))) moog
              (mkProperties (Str "Minimoog") (Str "Moog")) "Minimoog"
              (mkDevice 1 "Minimoog" "Moog")
              eq_refl eq_refl eq_refl)
    as [Hdev [_ [Hok _]]]; [discriminate | reflexivity |].
  split; [exact Hdev | apply Hok; reflexivity].
Defined.

(** X8.  An invocation that returns an error has changed the database only
    if the error is the token-write error, and then by exactly one Device
    Record: the device it had just created for the token that was not
    written. *)
Theorem indexById_error_leftover w id operator s e :
  fst (indexById w id operator s) = Ret (Some e) ->
  db (snd (indexById w id operator s)) <> db s ->
  exists err d,
    e = msg_midi err
    /\ devices (db (snd (indexById w id operator s)))
       = (devices (db s) ++ [d])%list
    /\ midi (db (snd (indexById w id operator s))) = midi (db s)
    /\ queue (db (snd (indexById w id operator s))) = queue (db s).
Proof.
  unfold indexById, fetchMetadata. run; intros H Hne;
    try discriminate H; try (now elim Hne); inversion H; subst.
  eexists; eexists. repeat split; reflexivity.
Qed.

(** The device is new, the token write is refused: the error carries the
    detail and the message of the database, and the device stays. *)
Lemma indexById_error_leftover_witness :
  exists d,
    fst (indexById midi_refused 1 alice (start empty_db))
    = Ret (Some (msg_midi unique_violation))
    /\ devices (db (snd (indexById midi_refused 1 alice (start empty_db))))
       = [d].
Proof.
  assert (He : fst (indexById midi_refused 1 alice (start empty_db))
               = Ret (Some (msg_midi unique_violation)))
    by (vm_compute; reflexivity).
  destruct (indexById_error_leftover midi_refused 1 alice (start empty_db)
              (msg_midi unique_violation) He)
    as [err [d [_ [Hd _]]]].
  - vm_compute. discriminate.
  - exists d. split; [exact He | exact Hd].
Defined.

(** ** Device names stay unique *)

Lemma find_none_names name l :
  find (fun r => String.eqb (device_name r) name) l = None ->
  ~ In name (map device_name l).
Proof.
  intros H Hin. apply in_map_iff in Hin. destruct Hin as [r [<- Hr]].
  pose proof (find_none _ _ H r Hr) as F. cbn in F.
  now rewrite String.eqb_refl in F.
Qed.

Lemma indexById_names w id operator s :
  unique_names s -> unique_names (snd (indexById w id operator s)).
Proof.
  unfold unique_names. intros H.
  destruct (indexById_devices w id operator s) as [E | [d [E F]]];
    rewrite E; [exact H|].
  rewrite map_app. cbn. apply NoDup_app; [exact H | |].
  - repeat constructor. intros [].
  - intros a Ha [<- | []]. now apply (find_none_names _ _ F).
Qed.

Lemma retry_names w row s :
  unique_names s -> unique_names (snd (retry w row s)).
Proof.
  intros H.
  pose proof (indexById_names w (entry_id row) (entry_operator row) s H) as N.
  destruct (indexById w (entry_id row) (entry_operator row) s)
    as [[[e|]|x] s1] eqn:E; cbn in N.
  - rewrite (retry_failed _ _ _ _ _ E). exact N.
  - now rewrite (retry_indexed _ _ _ _ E).
  - now rewrite (retry_raised _ _ _ _ _ E).
Qed.

Lemma drain_loop_names w rows :
  forall s, unique_names s -> unique_names (snd (drain_loop w rows s)).
Proof.
  induction rows as [| row rows IH]; intros s H; [exact H|].
  cbn [drain_loop]. unfold bind.
  pose proof (retry_names w row s H) as N.
  destruct (retry w row s) as [[[]|x] s1]; cbn in N; [now apply IH | exact N].
Qed.

Lemma on_TransferSingle_names w operator from to id s :
  unique_names s ->
  unique_names (snd (on_TransferSingle w operator from to id s)).
Proof.
  intros H. destruct (String.eqb_spec from AddressZero) as [-> | E].
  - destruct (safe_integer id) eqn:Hid.
    + pose proof (indexById_names w id operator
                    (logged operator AddressZero to id s) H) as N.
      destruct (indexById w id operator (logged operator AddressZero to id s))
        as [[[e|]|x] s1] eqn:Hix; cbn in N.
      * rewrite (on_TransferSingle_failed w _ _ _ _ _ _ Hid Hix). exact N.
      * now rewrite (on_TransferSingle_indexed w _ _ _ _ _ Hid Hix).
      * now rewrite (on_TransferSingle_raised w _ _ _ _ _ _ Hid Hix).
    + now rewrite (on_TransferSingle_overflow w _ _ _ _ Hid).
  - now rewrite (on_TransferSingle_other w _ _ _ _ _ E).
Qed.

(** X9.  Run on its own, with no other handler in between, a listener
    event and a drain tick each keep the names of the Device Records
    distinct: a device is created only after the lookup of its name found
    none, and the retries of a tick follow one another. *)
Theorem device_names_stay_unique w s :
  unique_names s ->
  (forall operator from to id,
     unique_names (snd (on_TransferSingle w operator from to id s)))
  /\ unique_names (snd (drain w s)).
Proof.
  intros H. split.
  - intros operator from to id. now apply on_TransferSingle_names.
  - rewrite drain_run. now apply drain_loop_names.
Qed.

(** A mint of a second Minimoog token leaves one Minimoog device; so does a
    tick that indexes the queued tokens 4 and 5, both Minimoogs, of which
    the first creates the device. *)
Lemma device_names_stay_unique_witness :
  unique_names
    (snd (on_TransferSingle healthy alice AddressZero alice 2 (start db_1)))
  /\ unique_names (snd (drain healthy (start db_q4_q5)))
  /\ map device_name (devices (db (snd (drain healthy (start db_q4_q5)))))
     = ["Minimoog"].
Proof.
  split; [|split; [|vm_compute; reflexivity]].
  - destruct (device_names_stay_unique healthy (start db_1)) as [H _].
    + unfold unique_names. cbn. repeat constructor. intros [].
    + apply H.
  - destruct (device_names_stay_unique healthy (start db_q4_q5)) as [_ H].
    + unfold unique_names. cbn. constructor.
    + exact H.
Defined.

(** ** The listener *)


(** X11.  An event whose handling raises leaves the database exactly as it
    was before the event: no Device Record, no Token Record, no Queue
    Entry. *)
Theorem on_TransferSingle_raise_clean w operator from to id s x :
  fst (on_TransferSingle w operator from to id s) = Thrown x ->
  db (snd (on_TransferSingle w operator from to id s)) = db s.
Proof.
  destruct (String.eqb_spec from AddressZero) as [-> | E].
  - destruct (safe_integer id) eqn:Hid.
    + destruct (indexById w id operator (logged operator AddressZero to id s))
        as [[[e|]|y] s1] eqn:Hix.
      * rewrite (on_TransferSingle_failed w _ _ _ _ _ _ Hid Hix).
        intros H; discriminate H.
      * rewrite (on_TransferSingle_indexed w _ _ _ _ _ Hid Hix).
        intros H; discriminate H.
      * rewrite (on_TransferSingle_raised w _ _ _ _ _ _ Hid Hix). intros _.
        destruct (indexById_raise_db w id operator
                    (logged operator AddressZero to id s) y) as [Hs _];
          [now rewrite Hix|].
        rewrite Hix in Hs. cbn in Hs. now rewrite Hs.
    + now rewrite (on_TransferSingle_overflow w _ _ _ _ Hid).
  - now rewrite (on_TransferSingle_other w _ _ _ _ _ E).
Qed.

(** A mint whose body is not JSON, on a database that holds records. *)
Lemma on_TransferSingle_raise_clean_witness :
  db (snd (on_TransferSingle gateway_garbled alice AddressZero alice 2
             (start db_1_3_q4)))
  = db_1_3_q4.
Proof.
  apply (on_TransferSingle_raise_clean gateway_garbled alice AddressZero alice
           2 (start db_1_3_q4) SyntaxError).
  reflexivity.
Defined.

(** ** [fetchOriginalMinter] *)

Lemma find_filter A (p q : A -> bool) l :
  find p (filter q l) = find (fun a => q a && p a) l.
Proof.
  induction l as [| a l IH]; [reflexivity|]. cbn.
  destruct (q a); cbn; [|exact IH]. now destruct (p a).
Qed.

Lemma find_event_find id evs s :
  Forall (fun e => safe_integer (ev_id e) = true) evs ->
  find_event id evs s = (Ret (find (fun e => ev_id e =? id) evs), s).
Proof.
  induction 1 as [| e evs He _ IH]; [reflexivity|].
  cbn. unfold toNumber, bind, ret. rewrite He.
  destruct (ev_id e =? id); [reflexivity | exact IH].
Qed.

(** X12.  When every mint in the log has a representable id,
    [fetchOriginalMinter] answers with the operator of the first event of
    the log that is a mint (its [from] is the zero address) of the id
    sought, at or after block 7853362; transfers that are not mints, events
    before that block and later mints of the same id play no part.  It
    prints its line (line 137) exactly when there is no such event, and
    answers [undefined] then. *)
Theorem fetchOriginalMinter_first_mint w id s log :
  chain_log w (clock s) = Some log ->
  Forall (fun e => is_mint_since 7853362 e = true ->
                   safe_integer (ev_id e) = true) log ->
  fetchOriginalMinter w id s
  = (Ret (first_minter log id),
     mkSt (db s)
       (trace s ++ EQueryFilter 7853362
          :: match first_minter log id with
             | Some _ => []
             | None => [EConsole TargetEventFound]
             end)
       (S (clock s)) (pending s)).
Proof.
  intros Hlog Hsafe.
  unfold fetchOriginalMinter, queryFilter, first_minter. unfold_m. cbn.
  rewrite Hlog. cbn.
  rewrite find_event_find.
  - fold (is_mint_since 7853362). rewrite find_filter.
    destruct (find _ log) as [e|]; cbn; [|now rewrite <- app_assoc].
    reflexivity.
  - apply Forall_forall. intros e He. apply filter_In in He.
    destruct He as [He Hm]. rewrite Forall_forall in Hsafe.
    now apply Hsafe.
Qed.

(** A burn of token 2, a mint of it before the start block, then two mints:
    the answer is the operator of the first of the two. *)
Lemma fetchOriginalMinter_first_mint_witness :
  fst (fetchOriginalMinter chain_mixed 2 (start empty_db)) = Ret (Some alice).
Proof.
  rewrite (fetchOriginalMinter_first_mint chain_mixed 2 (start empty_db)
             log_mixed eq_refl).
  - reflexivity.
  - repeat constructor.
Defined.

(** ** What a sweep starts *)

Lemma find_event_found id evs s e s1 :
  find_event id evs s = (Ret (Some e), s1) -> In e evs /\ ev_id e = id.
Proof.
  induction evs as [| a evs IH]; cbn; [intros H; discriminate H|].
  unfold toNumber, bind, ret, throw.
  destruct (safe_integer (ev_id a)); [|intros H; discriminate H].
  destruct (Z.eqb_spec (ev_id a) id) as [E | E].
  - intros H. inversion H; subst. auto.
  - intros H. destruct (IH H). auto.
Qed.

Lemma fetchOriginalMinter_minted w id s operator s1 :
  fetchOriginalMinter w id s = (Ret (Some operator), s1) ->
  exists log e,
    chain_log w (clock s) = Some log /\ In e log
    /\ ev_id e = id /\ ev_operator e = operator
    /\ ev_from e = AddressZero /\ 7853362 <= ev_block e.
Proof.
  unfold fetchOriginalMinter, queryFilter. unfold_m. cbn.
  destruct (chain_log w (clock s)) as [log|]; cbn;
    [|intros H; discriminate H].
  match goal with |- context [find_event id ?evs ?s0] =>
    destruct (find_event id evs s0) as [[[e|]|x] s2] eqn:F
  end; cbn; intros H; inversion H; subst.
  apply find_event_found in F. destruct F as [Hin Hid].
  apply filter_In in Hin. destruct Hin as [Hin Hm].
  apply andb_prop in Hm. destruct Hm as [Hz Hb].
  exists log, e. repeat split; auto.
  - now apply String.eqb_eq.
  - now apply Z.leb_le.
Qed.

(** The calls the loop starts: for an initial segment of its ids, each with
    a minter from the log. *)
Lemma sync_loop_started w ids :
  forall s,
    db (snd (sync_loop w ids s)) = db s
    /\ exists started rest,
         pending (snd (sync_loop w ids s)) = (pending s ++ started)%list
         /\ ids = (map fst started ++ rest)%list
         /\ Forall (minted w) started.
Proof.
  induction ids as [| id ids IH]; intros s.
  - split; [reflexivity|]. exists [], []. cbn. rewrite app_nil_r. auto.
  - split; [apply sync_loop_db|]. cbn [sync_loop].
    pose proof (fetchOriginalMinter_frame w id s) as [_ Fp].
    unfold bind at 1.
    destruct (fetchOriginalMinter w id s) as [[operator|x] s1] eqn:E;
      cbn in Fp.
    + destruct operator as [op|]; cbn [truthy_error].
      * destruct (truthy_string op) eqn:T.
        -- unfold bind, spawn.
           match goal with |- context [sync_loop w ids ?s2] =>
             destruct (IH s2) as [_ [started [rest [P [I M]]]]]
           end.
           cbn in P. exists ((id, op) :: started), rest.
           split; [|split].
           ++ rewrite P, Fp, <- app_assoc. reflexivity.
           ++ cbn. now rewrite I.
           ++ constructor; [|exact M]. split.
              ** cbn. intros ->. discriminate T.
              ** destruct (fetchOriginalMinter_minted _ _ _ _ _ E)
                   as [log [e H]].
                 exists (clock s), log, e. exact H.
        -- unfold_m. cbn. exists [], (id :: ids). cbn.
           rewrite app_nil_r. auto.
      * unfold_m. cbn. exists [], (id :: ids). cbn.
        rewrite app_nil_r. auto.
    + exists [], (id :: ids). cbn. rewrite app_nil_r. auto.
Qed.

Lemma sync_started w s cur :
  chain_currentTokenId w (clock s) = Some cur ->
  exists started rest,
    pending (snd (sync w s)) = (pending s ++ started)%list
    /\ missing cur s = (map fst started ++ rest)%list
    /\ Forall (minted w) started.
Proof.
  intros Hcur. rewrite (sync_run w s cur Hcur). unfold toNumber.
  assert (N : exists started rest,
            pending (polled s) = (pending s ++ started)%list
            /\ missing cur s = (map fst started ++ rest)%list
            /\ Forall (minted w) started).
  { exists [], (missing cur s). cbn. rewrite app_nil_r. auto. }
  destruct (safe_integer cur); [|exact N].
  unfold bind at 1. unfold ret at 1.
  destruct (negb _); [|exact N].
  destruct (cur <? 2 ^ 32); [|exact N].
  destruct (sync_loop_started w (missing cur s) (polled s))
    as [_ [started [rest H]]].
  exists started, rest. exact H.
Qed.

(** X14.  Whatever the log holds, the [indexById] calls a sweep starts are
    for an initial segment of the missing ids, in their order; each started
    id lies in [1..currentId] and has neither a Token Record nor a fetched
    Queue Entry; and the operator handed to each call is not empty and is
    the operator of a mint of that id recorded in the log from block
    7853362 on. *)
Theorem sync_starts w s cur :
  chain_currentTokenId w (clock s) = Some cur ->
  exists started rest,
    pending (snd (sync w s)) = (pending s ++ started)%list
    /\ missing cur s = (map fst started ++ rest)%list
    /\ Forall (minted w) started
    /\ Forall (fun call =>
                 1 <= fst call <= cur
                 /\ ~ In (fst call) (map token_id (midi (db s)))
                 /\ ~ In (fst call)
                      (map entry_id (firstn 1000 (queue (db s)))))
         started.
Proof.
  intros Hcur.
  destruct (sync_started w s cur Hcur) as [started [rest [P [I M]]]].
  exists started, rest. repeat split; try assumption.
  apply Forall_forall. intros call Hc.
  apply (unqueueDiff_In cur). fold (missing cur s). rewrite I.
  apply in_or_app. left. now apply in_map.
Qed.

(** Five tokens on chain, records for 1 and 3, an entry for 4, the mints of
    2 and 5 in the log: the sweep starts the calls for 2 and 5, with the
    minter of each. *)
Lemma sync_starts_witness :
  exists started rest,
    pending (snd (sync chain_2_5 (start db_1_3_q4))) = started
    /\ [2; 5] = (map fst started ++ rest)%list
    /\ Forall (minted chain_2_5) started.
Proof.
  destruct (sync_starts chain_2_5 (start db_1_3_q4) 5 eq_refl)
    as [started [rest [P [I [M _]]]]].
  exists started, rest. repeat split; assumption.
Defined.

(** X15.  The missing ids are handled in strictly ascending order, and
    there are none when the counter is not positive. *)
Theorem missing_ascending cur s :
  StronglySorted Z.lt (missing cur s)
  /\ (cur <= 0 -> missing cur s = []).
Proof.
  split.
  - unfold missing, unqueueDiff.
    assert (F : forall (p : Z -> bool) l,
              StronglySorted Z.lt l -> StronglySorted Z.lt (filter p l)).
    { intros p l H. induction H as [| a l Hs IH Ha]; cbn; [constructor|].
      destruct (p a); [|exact IH]. constructor; [exact IH|].
      apply Forall_forall. intros x Hx. apply filter_In in Hx.
      rewrite Forall_forall in Ha. now apply Ha. }
    do 2 apply F. unfold tokenIDs.
    generalize 1%nat. induction (Z.to_nat cur) as [| k IH]; intros a; cbn;
      constructor; [apply IH|].
    apply Forall_forall. intros x Hx. apply in_map_iff in Hx.
    destruct Hx as [n [<- Hn]]. apply in_seq in Hn. lia.
  - intros H. unfold missing, unqueueDiff, tokenIDs.
    replace (Z.to_nat cur) with 0%nat by lia. reflexivity.
Qed.

(** A counter of zero: nothing is missing. *)
Lemma missing_ascending_witness : missing 0 (start db_1_7) = [].
Proof.
  apply (missing_ascending 0 (start db_1_7)). lia.
Defined.

(** ** A sweep keeps the token ids unique *)

Lemma indexById_midi_cases w id operator s :
  midi (db (snd (indexById w id operator s))) = midi (db s)
  \/ exists t,
       midi (db (snd (indexById w id operator s))) = (midi (db s) ++ [t])%list
       /\ token_id t = id.
Proof.
  destruct (fst (indexById w id operator s)) as [[e|]|x] eqn:E.
  - left. apply indexById_failure. rewrite E. discriminate.
  - right. destruct (indexById_success w id operator s E) as [d [m [_ H]]].
    eexists. split; [exact H | reflexivity].
  - left. apply indexById_failure. rewrite E. discriminate.
Qed.

Lemma run_calls_tokens w calls :
  forall s,
    NoDup (map token_id (midi (db s)) ++ map fst calls) ->
    unique_tokens (run_calls w calls s).
Proof.
  induction calls as [| [id operator] calls IH]; intros s H.
  - cbn in H. rewrite app_nil_r in H. exact H.
  - cbn [run_calls]. apply IH. cbn [map fst] in H.
    destruct (indexById_midi_cases w id operator s) as [E | [t [E Ht]]];
      rewrite E.
    + now apply NoDup_remove_1 in H.
    + rewrite map_app, <- app_assoc. cbn. now rewrite Ht.
Qed.

(** X16.  A sweep that finds no call pending from before keeps the ids of
    the Token Records distinct: the calls it starts are for distinct ids
    that had no Token Record, and each call writes at most one record, for
    its own id.  (The started calls run one after another.) *)
Theorem sweep_keeps_tokens_unique w s :
  pending s = [] ->
  unique_tokens s ->
  unique_tokens (sweep w s).
Proof.
  intros Hp Hu. unfold sweep, run_pending. apply run_calls_tokens. cbn.
  rewrite sync_db.
  destruct (chain_currentTokenId w (clock s)) as [cur|] eqn:E.
  - destruct (sync_started w s cur E) as [started [rest [P [I _]]]].
    rewrite P, Hp. cbn.
    pose proof (unqueueDiff_NoDup cur (map token_id (midi (db s)))
                  (map entry_id (firstn 1000 (queue (db s))))) as N.
    fold (missing cur s) in N. rewrite I in N.
    apply NoDup_app; [exact Hu | now apply NoDup_app_remove_r in N |].
    intros a Ha Hs.
    assert (Hm : In a (missing cur s))
      by (rewrite I; apply in_or_app; now left).
    apply (unqueueDiff_In cur) in Hm. now destruct Hm as [_ [Hm _]].
  - unfold sync. unfold_m. cbn. rewrite E. cbn. rewrite Hp. cbn.
    rewrite app_nil_r. exact Hu.
Qed.

(** The sweep of section 8: records 1 and 3 before, records 1, 3, 2 and 5
    after. *)
Lemma sweep_keeps_tokens_unique_witness :
  unique_tokens (sweep chain_2_5 (start db_1_3_q4))
  /\ map token_id (midi (db (sweep chain_2_5 (start db_1_3_q4))))
     = [1; 3; 2; 5].
Proof.
  split; [|reflexivity].
  apply (sweep_keeps_tokens_unique chain_2_5 (start db_1_3_q4));
    [reflexivity|].
  unfold unique_tokens. cbn. repeat constructor; cbn; intuition discriminate.
Defined.

(** ** The queue under a drain tick *)

Lemma update_entry_id id attempts error r :
  entry_id (Db.update_entry id attempts error r) = entry_id r
  /\ entry_operator (Db.update_entry id attempts error r) = entry_operator r.
Proof.
  unfold Db.update_entry. destruct (Z.eqb_spec (entry_id r) id); cbn; auto.
Qed.

(** What one retry does to the queue: nothing, or the update for its row. *)
Lemma retry_queue w row s :
  queue (db (snd (retry w row s))) = queue (db s)
  \/ exists e,
       queue (db (snd (retry w row s)))
       = map (Db.update_entry (entry_id row)
                (js_add (js_number (entry_attempts row)) 1) e)
           (queue (db s)).
Proof.
  pose proof (indexById_frame w (entry_id row) (entry_operator row) s)
    as [F _].
  destruct (indexById w (entry_id row) (entry_operator row) s)
    as [[[e|]|x] s1] eqn:E; cbn in F.
  - rewrite (retry_failed _ _ _ _ _ E). right. exists e. cbn. now rewrite F.
  - rewrite (retry_indexed _ _ _ _ E). now left.
  - rewrite (retry_raised _ _ _ _ _ E). now left.
Qed.

Lemma drain_loop_entries w rows :
  forall s,
    map entry_id (queue (db (snd (drain_loop w rows s))))
    = map entry_id (queue (db s))
    /\ map entry_operator (queue (db (snd (drain_loop w rows s))))
       = map entry_operator (queue (db s)).
Proof.
  induction rows as [| row rows IH]; intros s; [now split|].
  cbn [drain_loop]. unfold bind.
  assert (R : map entry_id (queue (db (snd (retry w row s))))
              = map entry_id (queue (db s))
              /\ map entry_operator (queue (db (snd (retry w row s))))
                 = map entry_operator (queue (db s))).
  { destruct (retry_queue w row s) as [E | [e E]]; rewrite E; [now split|].
    rewrite !map_map. split; apply map_ext; intros r;
      apply update_entry_id. }
  destruct (retry w row s) as [[[]|x] s1]; cbn in R; [|exact R].
  destruct R as [R1 R2]. destruct (IH s1) as [I1 I2]. split; congruence.
Qed.

(** X17.  A drain tick never removes a Queue Entry and never adds one: the
    ids and the operators of the queue, in order, are after the tick what
    they were before, also for the entries whose retry succeeded. *)
Theorem drain_keeps_entries w s :
  map entry_id (queue (db (snd (drain w s)))) = map entry_id (queue (db s))
  /\ map entry_operator (queue (db (snd (drain w s))))
     = map entry_operator (queue (db s)).
Proof. rewrite drain_run. apply (drain_loop_entries w _ (fetched 10 s)). Qed.

Lemma NoDup_map_eq A B (f : A -> B) l a b :
  NoDup (map f l) -> In a l -> In b l -> f a = f b -> a = b.
Proof.
  induction l as [| c l IH]; cbn; [intros _ []|].
  intros N Ha Hb E. inversion N as [| ? ? Hc Hl]; subst.
  destruct Ha as [-> | Ha], Hb as [-> | Hb]; auto.
  - elim Hc. rewrite E. now apply in_map.
  - elim Hc. rewrite <- E. now apply in_map.
Qed.

Lemma drain_loop_bumps w q0 rows :
  NoDup (map entry_id q0) ->
  Forall (fun r => Z.abs (entry_attempts r) < 2 ^ 53) q0 ->
  incl rows q0 ->
  forall s,
    (exists g, queue (db s) = map g q0
               /\ forall r, In r q0 -> bumped r (g r)) ->
    exists g, queue (db (snd (drain_loop w rows s))) = map g q0
              /\ forall r, In r q0 -> bumped r (g r).
Proof.
  intros N B. induction rows as [| row rows IH]; intros Hin s Inv;
    [exact Inv|].
  cbn [drain_loop]. unfold bind.
  assert (R : exists g, queue (db (snd (retry w row s))) = map g q0
                        /\ forall r, In r q0 -> bumped r (g r)).
  { destruct Inv as [g [Hq Hg]].
    destruct (retry_queue w row s) as [E | [e E]]; rewrite E;
      [now exists g|].
    exists (fun r => Db.update_entry (entry_id row)
                       (js_add (js_number (entry_attempts row)) 1) e (g r)).
    split; [now rewrite Hq, map_map|].
    intros r Hr. destruct (Hg r Hr) as [Gi [Go Ga]].
    unfold Db.update_entry.
    destruct (Z.eqb_spec (entry_id (g r)) (entry_id row)) as [Eid | Eid].
    - assert (r = row).
      { apply (NoDup_map_eq _ _ entry_id q0); auto.
        - apply Hin. now left.
        - congruence. }
      subst r. rewrite Forall_forall in B.
      rewrite (js_succ_exact _ (B row Hr)).
      repeat split; cbn; auto; congruence.
    - repeat split; auto. }
  destruct (retry w row s) as [[[]|x] s1]; cbn in R; [|exact R].
  apply IH; [|exact R]. intros r Hr. apply Hin. now right.
Qed.

(** X18.  When the queue holds one entry per id and every attempt count is
    below 2^53, where the sum of line 278 is exact, a drain tick leaves
    every Queue Entry with its id and operator and with its attempt count
    either unchanged or one higher: an entry is charged at most one attempt
    per tick.  (With two entries of one id the later retry overwrites the
    count of both with its own row's count plus one.) *)
Theorem drain_bumps w s :
  NoDup (map entry_id (queue (db s))) ->
  Forall (fun r => Z.abs (entry_attempts r) < 2 ^ 53) (queue (db s)) ->
  Forall2 bumped (queue (db s)) (queue (db (snd (drain w s)))).
Proof.
  intros N B. rewrite drain_run.
  destruct (drain_loop_bumps w (queue (db s)) (firstn 10 (queue (db s))) N B)
    with (s := fetched 10 s) as [g [Hq Hg]].
  - intros r Hr. rewrite <- (firstn_skipn 10 (queue (db s))).
    apply in_or_app. now left.
  - exists (fun r => r). split; [now rewrite map_id|].
    intros r _. repeat split. now left.
  - rewrite Hq. clear Hq N B. induction (queue (db s)) as [| r l IH];
      cbn; constructor.
    + apply Hg. now left.
    + apply IH. intros r' Hr'. apply Hg. now right.
Qed.

(** The gateway is down: both entries are retried, both fail again, both
    are at one attempt. *)
Lemma drain_bumps_witness :
  Forall2 bumped (queue db_q4_q5)
    (queue (db (snd (drain gateway_down (start db_q4_q5)))))
  /\ map entry_attempts (queue (db (snd (drain gateway_down (start db_q4_q5)))))
     = [1; 1].
Proof.
  split; [|vm_compute; reflexivity].
  apply (drain_bumps gateway_down (start db_q4_q5)).
  - cbn. repeat constructor; cbn; intuition discriminate.
  - repeat constructor.
Defined.

(** ** The load of a tick and of a sweep *)

Lemma count_app p l1 l2 : count p (l1 ++ l2) = (count p l1 + count p l2)%nat.
Proof. unfold count. now rewrite filter_app, length_app. Qed.

Lemma indexById_counts w id operator s :
  exists new,
    extends s (snd (indexById w id operator s)) new
    /\ count is_uri new = 1%nat
    /\ (count is_http new <= 1)%nat.
Proof.
  unfold indexById, fetchMetadata, extends. run;
    repeat rewrite <- app_assoc; cbn; eexists; (split; [reflexivity|]);
    cbn; auto.
Qed.

Lemma retry_counts w row s :
  exists new,
    extends s (snd (retry w row s)) new
    /\ count is_uri new = 1%nat
    /\ (count is_http new <= 1)%nat.
Proof.
  destruct (indexById_counts w (entry_id row) (entry_operator row) s)
    as [new [E [U H]]].
  destruct (indexById w (entry_id row) (entry_operator row) s)
    as [[[e|]|x] s1] eqn:Hix; cbn in E.
  - rewrite (retry_failed _ _ _ _ _ Hix).
    exists (new ++ [EQueueUpdate (entry_id row)
                      (js_add (js_number (entry_attempts row)) 1) e])%list.
    split; [|split].
    + unfold extends in *. cbn. now rewrite E, app_assoc.
    + rewrite count_app, U. reflexivity.
    + rewrite count_app. cbn. lia.
  - rewrite (retry_indexed _ _ _ _ Hix). now exists new.
  - rewrite (retry_raised _ _ _ _ _ Hix). now exists new.
Qed.

Lemma drain_loop_counts w rows :
  forall s,
    exists new,
      extends s (snd (drain_loop w rows s)) new
      /\ (count is_uri new <= List.length rows)%nat
      /\ (count is_http new <= count is_uri new)%nat.
Proof.
  induction rows as [| row rows IH]; intros s.
  - exists []. cbn. unfold extends. rewrite app_nil_r. auto.
  - cbn [drain_loop]. unfold bind.
    destruct (retry_counts w row s) as [new [E [U H]]].
    destruct (retry w row s) as [[[]|x] s1]; cbn in E.
    + destruct (IH s1) as [new' [E' [U' H']]].
      exists (new ++ new')%list. split; [|split].
      * unfold extends in *. now rewrite E', E, app_assoc.
      * rewrite count_app, U. cbn. lia.
      * rewrite !count_app. lia.
    + exists new. cbn. repeat split; [exact E | lia | lia].
Qed.

(** X19.  A drain tick reads at most one uri and sends at most one metadata
    request per fetched entry, one after the other: with the fetch limit of
    10, at most 10 uri reads and at most 10 requests per tick. *)
Theorem drain_requests w s :
  exists new,
    extends s (snd (drain w s)) new
    /\ (count is_uri new <= List.length (firstn 10 (queue (db s))))%nat
    /\ (count is_http new <= count is_uri new)%nat
    /\ (count is_uri new <= 10)%nat.
Proof.
  rewrite drain_run.
  destruct (drain_loop_counts w (firstn 10 (queue (db s))) (fetched 10 s))
    as [new [E [U H]]].
  exists (EQueueFetch 10 :: new). split; [|split; [|split]].
  - unfold extends in *. rewrite E. cbn. now rewrite <- app_assoc.
  - exact U.
  - exact H.
  - pose proof (firstn_le_length 10 (queue (db s))). cbn. unfold count in *.
    cbn. lia.
Qed.

Lemma fetchOriginalMinter_queries w id s :
  exists new,
    extends s (snd (fetchOriginalMinter w id s)) new
    /\ count is_query new = 1%nat.
Proof.
  unfold fetchOriginalMinter, queryFilter, extends. unfold_m. cbn.
  destruct (chain_log w (clock s)) as [log|]; cbn;
    [|eexists; split; reflexivity].
  match goal with |- context [find_event id ?evs ?s0] =>
    pose proof (find_event_state id evs s0) as P;
    destruct (find_event id evs s0) as [[[e|]|x] s1]
  end; cbn in P; subst s1; cbn; repeat rewrite <- app_assoc;
    eexists; split; reflexivity.
Qed.

Lemma sync_loop_queries w ids :
  forall s,
    exists new,
      extends s (snd (sync_loop w ids s)) new
      /\ (count is_query new <= List.length ids)%nat.
Proof.
  induction ids as [| id ids IH]; intros s.
  - exists []. cbn. unfold extends. rewrite app_nil_r. auto.
  - cbn [sync_loop]. unfold bind at 1.
    destruct (fetchOriginalMinter_queries w id s) as [new [E Q]].
    destruct (fetchOriginalMinter w id s) as [[operator|x] s1]; cbn in E.
    + destruct (truthy_error operator).
      * unfold bind, spawn.
        match goal with |- context [sync_loop w ids ?s2] =>
          destruct (IH s2) as [new' [E' Q']]
        end.
        exists (new ++ new')%list. split.
        -- unfold extends in *. cbn in E'. now rewrite E', E, app_assoc.
        -- rewrite count_app, Q. cbn. lia.
      * unfold_m. cbn. exists (new ++ [EConsole (FailedFetchingOperator id)])%list.
        split.
        -- unfold extends in *. cbn. now rewrite E, app_assoc.
        -- rewrite count_app, Q. cbn. lia.
    + exists new. split; [exact E | cbn; lia].
Qed.

(** X20.  A sweep queries the mint log at most once per missing id: with
    counter [cur], at most as many [queryFilter] calls as there are ids of
    [1..cur] with neither a Token Record nor a fetched Queue Entry, hence at
    most [cur]. *)
Theorem sync_queries w s cur :
  chain_currentTokenId w (clock s) = Some cur ->
  exists new,
    extends s (snd (sync w s)) new
    /\ (count is_query new <= List.length (missing cur s))%nat
    /\ (List.length (missing cur s) <= Z.to_nat cur)%nat.
Proof.
  intros Hcur.
  assert (L : (List.length (missing cur s) <= Z.to_nat cur)%nat).
  { unfold missing, unqueueDiff, tokenIDs.
    eapply Nat.le_trans; [apply filter_length_le|].
    eapply Nat.le_trans; [apply filter_length_le|].
    now rewrite length_map, length_seq. }
  assert (P : exists new,
            extends s (polled s) new
            /\ (count is_query new <= List.length (missing cur s))%nat).
  { eexists. split; [reflexivity|]. cbn. lia. }
  rewrite (sync_run w s cur Hcur). unfold toNumber.
  destruct (safe_integer cur);
    [|destruct P as [new [E Q]]; exists new; auto].
  unfold bind at 1. unfold ret at 1.
  destruct (negb _); [|destruct P as [new [E Q]]; exists new; auto].
  destruct (cur <? 2 ^ 32); [|destruct P as [new [E Q]]; exists new; auto].
  destruct (sync_loop_queries w (missing cur s) (polled s)) as [new [E Q]].
  exists ([ECurrentTokenId; EMidiFetch; EQueueFetch 1000] ++ new)%list.
  split; [|split; [|exact L]].
  - unfold extends in *. rewrite E. cbn. now rewrite <- app_assoc.
  - rewrite count_app. cbn. exact Q.
Qed.

(** The sweep of section 8 makes two queries. *)
Lemma sync_queries_witness :
  exists new,
    extends (start db_1_3_q4) (snd (sync chain_2_5 (start db_1_3_q4))) new
    /\ (count is_query new <= 2)%nat.
Proof.
  destruct (sync_queries chain_2_5 (start db_1_3_q4) 5 eq_refl)
    as [new [E [Q _]]].
  exists new. split; [exact E | exact Q].
Defined.

(** ** From a failed mint to its Token Record *)


